(** * common/alloc/buffer.go: recyclable byte buffers

    A shallow embedding of the [alloc] package's [Buffer]: Go slices are
    slice headers (array, offset, length, capacity) over a store of byte
    arrays, [*Buffer] values are addresses into a store of buffer objects,
    and every method is a state-passing computation over that store which
    either returns or panics, in both cases with the store it has reached. *)

From Stdlib Require Import ZArith Lia String.
From Stdlib.Strings Require Byte.
From stdpp Require Import base list.

Local Open Scope Z_scope.

(** ** Go's [int]: 64-bit two's complement, silent wrap-around *)

Definition min_int : Z := - 2 ^ 63.
Definition max_int : Z := 2 ^ 63 - 1.

Definition wrap (z : Z) : Z := (z + 2 ^ 63) mod 2 ^ 64 - 2 ^ 63.

Definition int_add (a b : Z) : Z := wrap (a + b).
Definition int_sub (a b : Z) : Z := wrap (a - b).

(** ** Slices, buffers and the store *)

Definition byte : Type := Byte.byte.

(** A non-nil slice header. [s_cap] counts from [s_off], as Go's [cap]. *)
Record slice := MkSlice { s_arr : nat; s_off : Z; s_len : Z; s_cap : Z }.

(** A value of type [[]byte]; [None] is the nil slice. *)
Definition bytes := option slice.

Definition len (s : bytes) : Z :=
  match s with Some h => s_len h | None => 0 end.

Definition cap (s : bytes) : Z :=
  match s with Some h => s_cap h | None => 0 end.

(** A [*Buffer]; [None] is the nil pointer. *)
Definition ptr := option nat.

(** A [Pool] interface value; [None] is the nil interface. *)
Definition poolref := option nat.

Record Buffer := MkBuffer {
  head : bytes;
  pool : poolref;
  Value : bytes;
  offset : Z
}.

Definition set_head (v : bytes) (o : Buffer) : Buffer :=
  MkBuffer v (pool o) (Value o) (offset o).
Definition set_pool (v : poolref) (o : Buffer) : Buffer :=
  MkBuffer (head o) v (Value o) (offset o).
Definition set_Value (v : bytes) (o : Buffer) : Buffer :=
  MkBuffer (head o) (pool o) v (offset o).
Definition set_offset (v : Z) (o : Buffer) : Buffer :=
  MkBuffer (head o) (pool o) (Value o) v.

(** Modelled from the spec: the [BufferPool] behind the [Pool] interface
    (buffer_pool.go is not part of the sources at hand).  A pool services
    one size class and owns a free collection of idle backing stores. *)
Record PoolObj := MkPool { pool_size : Z; idle : list bytes }.

Record World := MkWorld {
  mem : list (list byte);
  objs : list Buffer;
  pools : list PoolObj
}.

Definition set_mem (m : list (list byte)) (w : World) : World :=
  MkWorld m (objs w) (pools w).
Definition set_obj (a : nat) (o : Buffer) (w : World) : World :=
  MkWorld (mem w) (<[a := o]> (objs w)) (pools w).
Definition set_poolobj (q : nat) (po : PoolObj) (w : World) : World :=
  MkWorld (mem w) (objs w) (<[q := po]> (pools w)).

(** ** Computations: return or panic *)

Inductive fault :=
| PanicMsg (msg : string)     (* panic("...") raised by the package *)
| SliceBounds                 (* runtime error: slice bounds out of range *)
| NilDereference              (* runtime error: nil pointer dereference *)
| LenOutOfRange.              (* makeslice / growslice: len out of range *)

Inductive Result (A : Type) :=
| Ok (a : A) (w : World)
| Panic (f : fault) (w : World).
Arguments Ok {A} a w.
Arguments Panic {A} f w.

Definition M (A : Type) := World -> Result A.

Definition ret {A} (a : A) : M A := fun w => Ok a w.
Definition bind {A B} (m : M A) (k : A -> M B) : M B :=
  fun w => match m w with Ok a w' => k a w' | Panic f w' => Panic f w' end.
Definition panic {A} (f : fault) : M A := fun w => Panic f w.

Notation "'do' x <- m ; k" := (bind m (fun x => k))
  (at level 10, x name, m at level 100, k at level 200).
Notation "'do_' m ; k" := (bind m (fun _ => k))
  (at level 10, m at level 100, k at level 200).

(** The message of the only [panic] call of buffer.go: the spec's
    [HeadroomExhausted]. *)
Definition HeadroomExhausted : fault := PanicMsg "Negative buffer offset.".

(** Go's [error] values: [io.EOF] and whatever a source reports. *)
Inductive error := EOF | SourceError (msg : string).

(** ** Memory *)

(** Overwriting part of an array; an array never changes its length. *)
Definition splice (l : list byte) (pos : nat) (data : list byte) : list byte :=
  take (length l) (take pos l ++ data ++ drop (pos + length data)%nat l).

Definition mem_write (arr : nat) (pos : Z) (data : list byte) (w : World) : World :=
  match mem w !! arr with
  | Some l => set_mem (<[arr := splice l (Z.to_nat pos) data]> (mem w)) w
  | None => w
  end.

Definition mem_read (w : World) (arr : nat) (pos n : Z) : list byte :=
  match mem w !! arr with
  | Some l => take (Z.to_nat n) (drop (Z.to_nat pos) l)
  | None => []
  end.

(** The bytes a slice shows: elements [0 .. len). *)
Definition contents (w : World) (s : bytes) : list byte :=
  match s with
  | Some h => mem_read w (s_arr h) (s_off h) (s_len h)
  | None => []
  end.

Definition get_contents (s : bytes) : M (list byte) :=
  fun w => Ok (contents w s) w.

(** ** Go built-ins *)

(** [s[lo:hi]]: needs [0 <= lo <= hi <= cap(s)]. *)
Definition reslice (s : bytes) (lo hi : Z) : M bytes :=
  if (0 <=? lo) && (lo <=? hi) && (hi <=? cap s) then
    match s with
    | Some h => ret (Some (MkSlice (s_arr h) (s_off h + lo) (hi - lo) (s_cap h - lo)))
    | None => ret None
    end
  else panic SliceBounds.

(** The runtime's [maxAlloc], the largest allocation makeslice lets
    through, on the 64-bit platforms (48 address bits). *)
Definition max_alloc : Z := 2 ^ 48.

(** [make([]byte, n)]: a fresh zeroed array; makeslice panics for a
    negative length and for one above [maxAlloc].  That the machine has the
    memory for an array makeslice lets through is not modelled: what is
    proved of [make] for a length in general is proved for the case that it
    returns. *)
Definition make (n : Z) : M bytes :=
  if (0 <=? n) && (n <=? max_alloc) then
    fun w => Ok (Some (MkSlice (length (mem w)) 0 n n))
                (set_mem (mem w ++ [replicate (Z.to_nat n) Byte.x00]) w)
  else panic LenOutOfRange.

(** [copy(dst, src)] with [src] given by its bytes; as memmove, the source
    is read in full before the destination is written. *)
Definition copy (dst : bytes) (src : list byte) : M Z :=
  let n := Z.min (len dst) (Z.of_nat (length src)) in
  match dst with
  | Some h => fun w => Ok n (mem_write (s_arr h) (s_off h) (take (Z.to_nat n) src) w)
  | None => ret n
  end.

Section Runtime.

(** The capacity the runtime's growslice picks for an old capacity and a
    needed length; the runtime never hands out less than the needed length. *)
Variable grow : Z -> Z -> Z.

Definition newcap (oldcap needed : Z) : Z := Z.max needed (grow oldcap needed).

(** [append(s, data...)]: in place while the capacity lasts, otherwise into
    a fresh array that receives the old elements and the new ones. *)
Definition append (s : bytes) (data : list byte) : M bytes :=
  let n := Z.of_nat (length data) in
  if len s + n <=? cap s then
    match s with
    | Some h => fun w =>
        Ok (Some (MkSlice (s_arr h) (s_off h) (s_len h + n) (s_cap h)))
           (mem_write (s_arr h) (s_off h + s_len h) data w)
    | None => ret None
    end
  else if len s + n <=? max_int then
    fun w =>
      let c := newcap (cap s) (len s + n) in
      Ok (Some (MkSlice (length (mem w)) 0 (len s + n) c))
         (set_mem (mem w ++ [contents w s ++ data ++
                              replicate (Z.to_nat (c - (len s + n))) Byte.x00]) w)
  else panic LenOutOfRange.

(** ** Field access through a [*Buffer] *)

Definition rd {A} (f : Buffer -> A) (b : ptr) : M A := fun w =>
  match b with
  | Some a =>
      match objs w !! a with
      | Some o => Ok (f o) w
      | None => Panic NilDereference w
      end
  | None => Panic NilDereference w
  end.

Definition wr (g : Buffer -> Buffer) (b : ptr) : M unit := fun w =>
  match b with
  | Some a =>
      match objs w !! a with
      | Some o => Ok tt (set_obj a (g o) w)
      | None => Panic NilDereference w
      end
  | None => Panic NilDereference w
  end.

(** [new(Buffer)]: a fresh zero-valued object. *)
Definition new_Buffer : M ptr := fun w =>
  Ok (Some (length (objs w)))
     (MkWorld (mem w) (objs w ++ [MkBuffer None None None 0]) (pools w)).

(** ** buffer.go *)

Definition defaultOffset : Z := 16.

Definition CreateBuffer (container : bytes) (parent : poolref) : M ptr :=
  do b <- new_Buffer;
  do_ wr (set_head container) b;
  do_ wr (set_pool parent) b;
  do h <- rd head b;
  do v <- reslice h defaultOffset (len h);
  do_ wr (set_Value v) b;
  do_ wr (set_offset defaultOffset) b;
  ret b.

(** Modelled from the spec: [Pool.Free] (buffer_pool.go is missing) returns
    the buffer's backing store to the pool's idle collection. *)
Definition Pool_Free (q : nat) (b : ptr) : M unit :=
  do h <- rd head b;
  fun w =>
    match pools w !! q with
    | Some po => Ok tt (set_poolobj q (MkPool (pool_size po) (h :: idle po)) w)
    | None => Panic NilDereference w
    end.

Definition Release (b : ptr) : M unit :=
  match b with
  | None => ret tt
  | Some _ =>
      do h <- rd head b;
      match h with
      | None => ret tt
      | Some _ =>
          do q <- rd pool b;
          do_ (match q with Some q => Pool_Free q b | None => ret tt end);
          do_ wr (set_head None) b;
          do_ wr (set_Value None) b;
          wr (set_pool None) b
      end
  end.

Definition Clear (b : ptr) : M ptr :=
  do_ wr (set_offset defaultOffset) b;
  do h <- rd head b;
  do o <- rd offset b;
  do v <- reslice h o o;
  do_ wr (set_Value v) b;
  ret b.

Definition Reset (b : ptr) : M ptr :=
  do_ wr (set_offset defaultOffset) b;
  do h <- rd head b;
  do_ wr (set_Value h) b;
  ret b.

Definition Append (b : ptr) (data : list byte) : M ptr :=
  do v <- rd Value b;
  do v' <- append v data;
  do_ wr (set_Value v') b;
  ret b.

Definition AppendBytes (b : ptr) (data : list byte) : M ptr :=
  do v <- rd Value b;
  do v' <- append v data;
  do_ wr (set_Value v') b;
  ret b.

Definition SliceBack (b : ptr) (k : Z) : M ptr :=
  do o <- rd offset b;
  let newoffset := int_sub o k in
  if newoffset <? 0 then panic HeadroomExhausted
  else
    do h <- rd head b;
    do o <- rd offset b;
    do v <- rd Value b;
    do v' <- reslice h newoffset (int_add o (len v));
    do_ wr (set_Value v') b;
    do_ wr (set_offset newoffset) b;
    ret b.

Definition Prepend (b : ptr) (data : list byte) : M ptr :=
  do_ SliceBack b (Z.of_nat (length data));
  do v <- rd Value b;
  do_ copy v data;
  ret b.

Definition PrependBytes (b : ptr) (data : list byte) : M ptr :=
  Prepend b data.

Definition Bytes (b : ptr) : M bytes := rd Value b.

Definition Slice (b : ptr) (from to : Z) : M ptr :=
  do o <- rd offset b;
  do_ wr (set_offset (int_add o from)) b;
  do v <- rd Value b;
  do v' <- reslice v from to;
  do_ wr (set_Value v') b;
  ret b.

Definition SliceFrom (b : ptr) (from : Z) : M ptr :=
  do o <- rd offset b;
  do_ wr (set_offset (int_add o from)) b;
  do v <- rd Value b;
  do v' <- reslice v from (len v);
  do_ wr (set_Value v') b;
  ret b.

Definition Len (b : ptr) : M Z :=
  match b with
  | None => ret 0
  | Some _ => do v <- rd Value b; ret (len v)
  end.

Definition IsEmpty (b : ptr) : M bool :=
  do n <- Len b; ret (n =? 0).

Definition IsFull (b : ptr) : M bool :=
  do v <- rd Value b; ret (len v =? cap v).

Definition Write (b : ptr) (data : list byte) : M (Z * option error) :=
  do_ Append b data;
  ret (Z.of_nat (length data), None).

Definition Read (b : ptr) (data : bytes) : M (Z * option error) :=
  do n <- Len b;
  if n =? 0 then ret (0, Some EOF)
  else
    do v <- rd Value b;
    do src <- get_contents v;
    do nBytes <- copy data src;
    do n <- Len b;
    if nBytes =? n then
      do_ Clear b;
      ret (nBytes, None)
    else
      do v <- rd Value b;
      do v' <- reslice v nBytes (len v);
      do_ wr (set_Value v') b;
      do o <- rd offset b;
      do_ wr (set_offset (int_add o nBytes)) b;
      ret (nBytes, None).

(** One call of [io.Reader.Read(p)] as seen from the caller: the bytes the
    source stores into [p] from its first element on, the count it reports
    and its error.  The source keeps its own state of type [R]. *)
Record ReadOutcome := MkOutcome {
  ro_stored : list byte;
  ro_n : Z;
  ro_err : option error
}.

Class Reader (R : Type) := reader_Read : R -> Z -> ReadOutcome * R.

(** [reader.Read(p)]: stores into [p] stay within [len(p)]. *)
Definition call_Read {R} `{Reader R} (reader : R) (p : bytes)
  : M (Z * option error * R) :=
  let (out, reader') := reader_Read reader (len p) in
  fun w =>
    Ok (ro_n out, ro_err out, reader')
       match p with
       | Some h => mem_write (s_arr h) (s_off h)
                     (take (Z.to_nat (len p)) (ro_stored out)) w
       | None => w
       end.

Definition FillFrom {R} `{Reader R} (b : ptr) (reader : R)
  : M (Z * option error * R) :=
  do begin <- Len b;
  do v <- rd Value b;
  do v' <- reslice v 0 (cap v);
  do_ wr (set_Value v') b;
  do v <- rd Value b;
  do p <- reslice v begin (len v);
  do r <- call_Read reader p;
  let '(nBytes, err, reader') := r in
  do_ (match err with
       | None =>
           do v <- rd Value b;
           do v' <- reslice v 0 (int_add begin nBytes);
           wr (set_Value v') b
       | Some _ => ret tt
       end);
  ret (nBytes, err, reader').

(** Modelled from the spec: [Pool.Allocate] (buffer_pool.go is missing)
    takes an idle backing store of the pool's size class if there is one,
    constructs a new one otherwise, and wraps it in a fresh Buffer that
    refers back to the pool. *)
Definition Pool_Allocate (q : nat) : M ptr := fun w =>
  match pools w !! q with
  | Some po =>
      match idle po with
      | s :: rest =>
          CreateBuffer s (Some q) (set_poolobj q (MkPool (pool_size po) rest) w)
      | [] => (do s <- make (pool_size po); CreateBuffer s (Some q)) w
      end
  | None => Panic NilDereference w
  end.

(** Modelled from the spec: the three predefined pools (declared in the
    missing buffer_pool.go) are the first three pool objects of the store. *)
Definition smallPool : nat := 0.
Definition mediumPool : nat := 1.
Definition largePool : nat := 2.

(** The size-class thresholds are constants of the missing buffer_pool.go. *)
Variable SmallBufferSize : Z.
Variable BufferSize : Z.

Definition NewSmallBuffer : M ptr := Pool_Allocate smallPool.
Definition NewBuffer : M ptr := Pool_Allocate mediumPool.
Definition NewLargeBuffer : M ptr := Pool_Allocate largePool.

Definition NewBufferWithSize (size : Z) : M ptr :=
  if size <=? SmallBufferSize then NewSmallBuffer
  else if size <=? BufferSize then NewBuffer
  else NewLargeBuffer.

Definition NewLocalBuffer (size : Z) : M ptr :=
  do c <- make size;
  CreateBuffer c None.

(** ** The remaining methods of buffer.go *)

Definition AppendString (b : ptr) (s : list byte) : M ptr :=
  do v <- rd Value b;
  do v' <- append v s;
  do_ wr (set_Value v') b;
  ret b.

(** The byte [z mod 256]. *)
Definition byte_of_Z (z : Z) : byte :=
  match Byte.of_N (Z.to_N (z mod 256)) with
  | Some x => x
  | None => Byte.x00
  end.

(** Modelled from the spec: [serial.Uint16ToBytes] and [serial.Uint32ToBytes]
    (package serial is not among the sources) append the big-endian encoding
    of the value to the slice they are given and return the result. *)
Definition Uint16ToBytes (v : Z) (b : bytes) : M bytes :=
  append b [byte_of_Z (v / 256); byte_of_Z v].

Definition Uint32ToBytes (v : Z) (b : bytes) : M bytes :=
  append b [byte_of_Z (v / 16777216); byte_of_Z (v / 65536);
            byte_of_Z (v / 256); byte_of_Z v].

Definition AppendUint16 (b : ptr) (v : Z) : M ptr :=
  do x <- rd Value b;
  do x' <- Uint16ToBytes v x;
  do_ wr (set_Value x') b;
  ret b.

Definition AppendUint32 (b : ptr) (v : Z) : M ptr :=
  do x <- rd Value b;
  do x' <- Uint32ToBytes v x;
  do_ wr (set_Value x') b;
  ret b.

Definition PrependUint16 (b : ptr) (v : Z) : M ptr :=
  do_ SliceBack b 2;
  do x <- rd Value b;
  do x0 <- reslice x 0 0;
  do_ Uint16ToBytes v x0;
  ret b.

Definition PrependUint32 (b : ptr) (v : Z) : M ptr :=
  do_ SliceBack b 4;
  do x <- rd Value b;
  do x0 <- reslice x 0 0;
  do_ Uint32ToBytes v x0;
  ret b.

(** The standard library's [hash.Hash] as the buffer uses it: [Size], and
    [Sum(b)], which appends the current digest to [b] and returns the
    result. *)
Class Hash (H : Type) := MkHash { hash_Size : H -> Z; hash_digest : H -> list byte }.

Definition call_Sum {H} `{Hash H} (h : H) (b : bytes) : M bytes :=
  append b (hash_digest h).

Definition PrependHash {H} `{Hash H} (b : ptr) (h : H) : M ptr :=
  do_ SliceBack b (hash_Size h);
  do x <- rd Value b;
  do x0 <- reslice x 0 0;
  do_ call_Sum h x0;
  ret b.

(** [String]: the window's bytes, as Go's [string(b.Value)] copies them. *)
Definition String (b : ptr) : M (list byte) :=
  do v <- rd Value b;
  get_contents v.

(** ** Client loops used to state properties *)

(** Prepend the chunks one after the other. *)
Fixpoint PrependAll (b : ptr) (chunks : list (list byte)) : M ptr :=
  match chunks with
  | [] => ret b
  | c :: cs => do_ Prepend b c; PrependAll b cs
  end.

(** Read into [dst] until the buffer signals [io.EOF], collecting what each
    call produced; [None] when the fuel runs out first, [Some (bs, e)] when a
    call reported the error [e] after the bytes [bs]. *)
Fixpoint drain (fuel : nat) (b : ptr) (dst : bytes)
  : M (option (list byte * error)) :=
  match fuel with
  | O => ret None
  | S fuel' =>
      do r <- Read b dst;
      match r with
      | (_, Some e) => ret (Some ([], e))
      | (n, None) =>
          do got <- reslice dst 0 n;
          do chunk <- get_contents got;
          do rest <- drain fuel' b dst;
          ret (match rest with
               | Some (bs, e) => Some (chunk ++ bs, e)
               | None => None
               end)
      end
  end.

End Runtime.

(** The three size classes of the dispatcher. *)
Inductive SizeClass := Small | Medium | Large.

Definition class_pool (c : SizeClass) : nat :=
  match c with Small => smallPool | Medium => mediumPool | Large => largePool end.

Definition class_rank (c : SizeClass) : nat :=
  match c with Small => 0 | Medium => 1 | Large => 2 end.

(** ** Predicates on stores and buffers *)

(** The address [a] holds a buffer object. *)
Definition live (w : World) (a : nat) : Prop := (a < length (objs w))%nat.

(** [s[lo:hi]] as a slice header, when the bounds are right. *)
Definition subslice (s : bytes) (lo hi : Z) : bytes :=
  match s with
  | Some h => Some (MkSlice (s_arr h) (s_off h + lo) (hi - lo) (s_cap h - lo))
  | None => None
  end.

(** The header lies within an array of the store. *)
Definition slice_ok (w : World) (s : bytes) : Prop :=
  match s with
  | Some h =>
      match mem w !! s_arr h with
      | Some l =>
          0 <= s_off h /\ 0 <= s_len h <= s_cap h /\
          s_off h + s_cap h <= Z.of_nat (length l)
      | None => False
      end
  | None => True
  end.

(** The aliasing invariant: the window [Value] is the sub-range
    [head[offset : offset+Len]] of the backing store, header for header. *)
Definition aliased (o : Buffer) : Prop :=
  0 <= offset o /\ 0 <= len (Value o) /\
  offset o + len (Value o) <= cap (head o) /\
  cap (head o) <= max_int /\
  head o <> None /\
  Value o = subslice (head o) (offset o) (offset o + len (Value o)).

(** The operations that move or fill the window. *)
Inductive op :=
| OpAppend (data : list byte)
| OpPrepend (data : list byte)
| OpSlice (from to : Z)
| OpSliceFrom (from : Z)
| OpSliceBack (k : Z)
| OpClear
| OpRead (dst : bytes).

Definition run_op (grow : Z -> Z -> Z) (b : ptr) (c : op) : M unit :=
  match c with
  | OpAppend data => do_ Append grow b data; ret tt
  | OpPrepend data => do_ Prepend b data; ret tt
  | OpSlice from to => do_ Slice b from to; ret tt
  | OpSliceFrom from => do_ SliceFrom b from; ret tt
  | OpSliceBack k => do_ SliceBack b k; ret tt
  | OpClear => do_ Clear b; ret tt
  | OpRead dst => do_ Read b dst; ret tt
  end.

(** An append that fits the capacity the window has left; the other
    operations never grow the window past it. *)
Definition within_capacity (o : Buffer) (c : op) : Prop :=
  match c with
  | OpAppend data => len (Value o) + Z.of_nat (length data) <= cap (Value o)
  | _ => True
  end.

(** A source over a list of bytes, in the manner of bytes.Reader: it hands
    out what fits and reports [EOF] once it is empty. *)
Definition list_Read (r : list byte) (n : Z) : ReadOutcome * list byte :=
  match r with
  | [] => (MkOutcome [] 0 (Some EOF), [])
  | _ => (MkOutcome (take (Z.to_nat n) r) (Z.min n (Z.of_nat (length r))) None,
          drop (Z.to_nat n) r)
  end.

#[export] Instance list_Reader : Reader (list byte) := list_Read.


(** A class's capacity: the dispatcher's two thresholds and, for the large
    class, the capacity [L] of its stores (which the dispatcher never reads). *)
Definition class_capacity (S B L : Z) (c : SizeClass) : Z :=
  match c with Small => S | Medium => B | Large => L end.

(** What [Pool.Free] does to a pool: one more idle store. *)
Definition give_back (h : bytes) (po : PoolObj) : PoolObj :=
  MkPool (pool_size po) (h :: idle po).

(** The store before anything is allocated. *)
Definition empty_world : World := MkWorld [] [] [].

(** A 32-byte backing store wrapped by one pooled buffer in its initial
    state: what [Pool_Allocate] makes of an empty 32-byte pool. *)
Definition demo_buffer : Buffer :=
  MkBuffer (Some (MkSlice 0 0 32 32)) (Some 0%nat) (Some (MkSlice 0 16 16 16)) 16.

Definition demo_world : World :=
  MkWorld [replicate 32 Byte.x00] [demo_buffer] [MkPool 32 []].

(** The store once [Read]'s [copy] has filled the destination [d] from the
    window [vs]. *)
Definition copied (w : World) (d vs : slice) : World :=
  mem_write (s_arr d) (s_off d)
    (take (Z.to_nat (Z.min (s_len d) (s_len vs))) (contents w (Some vs))) w.

Definition hello : list byte :=
  [Byte.x68; Byte.x65; Byte.x6c; Byte.x6c; Byte.x6f].

(** [demo_world] with a second array, a 3-byte destination. *)
Definition demo_dst : slice := MkSlice 1 0 3 3.

Definition demo_world_dst : World :=
  MkWorld [replicate 32 Byte.x00; replicate 3 Byte.x00] [demo_buffer] [MkPool 32 []].

(** [demo_world] once its buffer has been cleared. *)
Definition cleared_buffer : Buffer :=
  MkBuffer (Some (MkSlice 0 0 32 32)) (Some 0%nat) (Some (MkSlice 0 16 0 16)) 16.

Definition cleared_world : World :=
  MkWorld [replicate 32 Byte.x00] [cleared_buffer] [MkPool 32 []].

(** The number of bytes in a sequence of chunks. *)
Fixpoint total (chunks : list (list byte)) : Z :=
  match chunks with
  | [] => 0
  | c :: cs => Z.of_nat (length c) + total cs
  end.

(** [demo_world_dst] once its buffer has been cleared and has received
    [hello]. *)
Definition hello_buffer : Buffer :=
  MkBuffer (Some (MkSlice 0 0 32 32)) (Some 0%nat) (Some (MkSlice 0 16 5 16)) 16.

Definition hello_world : World :=
  MkWorld [replicate 16 Byte.x00 ++ hello ++ replicate 11 Byte.x00;
           replicate 3 Byte.x00]
    [hello_buffer] [MkPool 32 []].

(** Growth by doubling the needed length, for examples. *)
Definition doubling (oldcap needed : Z) : Z := 2 * needed.

(** The buffer is live and both its backing store and its window lie
    within arrays of the store. *)
Definition store_safe (w : World) (o : Buffer) : Prop :=
  head o <> None /\ Value o <> None /\
  slice_ok w (head o) /\ slice_ok w (Value o).

(** A digest of four bytes, for examples. *)
Definition demo_hash : list byte := [Byte.xde; Byte.xad; Byte.xbe; Byte.xef].

#[export] Instance list_Hash : Hash (list byte) :=
  {| hash_Size := fun h => Z.of_nat (length h); hash_digest := fun h => h |}.

(** A source that breaks the contract of io.Reader: it stores nothing and
    reports [liar_n] bytes, for examples. *)
Record Liar := MkLiar { liar_n : Z }.

#[export] Instance Liar_Reader : Reader Liar :=
  fun r _ => (MkOutcome [] (liar_n r) None, r).

(** A source that delivers its bytes, as many as fit, together with an
    error, which io.Reader allows; for examples. *)
Record Failing := MkFailing { failing_bytes : list byte; failing_err : error }.

#[export] Instance Failing_Reader : Reader Failing :=
  fun r n =>
    (MkOutcome (take (Z.to_nat n) (failing_bytes r))
       (Z.min n (Z.of_nat (length (failing_bytes r))))
       (Some (failing_err r)), r).

(** [Len] before a [FillFrom], the count and the error it returns, and
    [Len] after it. *)
Definition Len_around_FillFrom {R : Type} `{Reader R} (b : ptr) (reader : R)
  : M (Z * Z * option error * Z) :=
  do before <- Len b;
  do r <- FillFrom b reader;
  do after <- Len b;
  ret (before, fst (fst r), snd (fst r), after).

(** * Properties *)

(** ** Integers *)

Lemma wrap_id (z : Z) : min_int <= z <= max_int -> wrap z = z.
Proof.
  unfold min_int, max_int, wrap. intros Hz.
  rewrite Z.mod_small by lia. lia.
Qed.

Lemma int_add_id (a b : Z) :
  min_int <= a + b <= max_int -> int_add a b = a + b.
Proof. apply wrap_id. Qed.

Lemma int_sub_id (a b : Z) :
  min_int <= a - b <= max_int -> int_sub a b = a - b.
Proof. apply wrap_id. Qed.

Lemma max_int_pos : 16 < max_int.
Proof. unfold max_int. lia. Qed.

(** ** Stepping through computations *)

Lemma bind_ok {A B} (m : M A) (k : A -> M B) w a w' :
  m w = Ok a w' -> bind m k w = k a w'.
Proof. unfold bind. now intros ->. Qed.

Lemma bind_panic {A B} (m : M A) (k : A -> M B) w f w' :
  m w = Panic f w' -> bind m k w = Panic f w'.
Proof. unfold bind. now intros ->. Qed.

Lemma bind_inv_ok {A B} (m : M A) (k : A -> M B) w b w2 :
  bind m k w = Ok b w2 -> exists a w1, m w = Ok a w1 /\ k a w1 = Ok b w2.
Proof.
  unfold bind. destruct (m w) as [a w1|f w1]; [eauto|discriminate].
Qed.

(** ** The object store *)

Lemma live_lookup w a o : objs w !! a = Some o -> live w a.
Proof. apply lookup_lt_Some. Qed.

Lemma set_obj_id w a o : objs w !! a = Some o -> set_obj a o w = w.
Proof.
  intros H. destruct w as [m os ps]. unfold set_obj. simpl in *.
  now rewrite list_insert_id.
Qed.

Lemma objs_set_obj w a o : live w a -> objs (set_obj a o w) !! a = Some o.
Proof. intros H. simpl. now apply list_lookup_insert_eq. Qed.

Lemma set_obj_set_obj w a o1 o2 :
  set_obj a o2 (set_obj a o1 w) = set_obj a o2 w.
Proof. unfold set_obj. simpl. now rewrite list_insert_insert_eq. Qed.

Lemma live_set_obj w a b o : live (set_obj b o w) a <-> live w a.
Proof. unfold live. simpl. now rewrite length_insert. Qed.

Lemma rd_set {A} (f : Buffer -> A) w a o :
  live w a -> rd f (Some a) (set_obj a o w) = Ok (f o) (set_obj a o w).
Proof. intros H. unfold rd. now rewrite objs_set_obj. Qed.

Lemma wr_set (g : Buffer -> Buffer) w a o :
  live w a -> wr g (Some a) (set_obj a o w) = Ok tt (set_obj a (g o) w).
Proof.
  intros H. unfold wr. rewrite objs_set_obj by done.
  now rewrite set_obj_set_obj.
Qed.

Lemma mem_write_set_obj arr pos data a o w :
  mem_write arr pos data (set_obj a o w) = set_obj a o (mem_write arr pos data w).
Proof. unfold mem_write. simpl. now destruct (mem w !! arr). Qed.

Lemma live_mem_write arr pos data w a :
  live (mem_write arr pos data w) a <-> live w a.
Proof. unfold live, mem_write. now destruct (mem w !! arr). Qed.

Lemma objs_mem_write arr pos data w : objs (mem_write arr pos data w) = objs w.
Proof. unfold mem_write. now destruct (mem w !! arr). Qed.

Lemma pools_mem_write arr pos data w : pools (mem_write arr pos data w) = pools w.
Proof. unfold mem_write. now destruct (mem w !! arr). Qed.

Lemma reslice_ok (s : bytes) (lo hi : Z) w :
  0 <= lo <= hi -> hi <= cap s ->
  reslice s lo hi w =
    Ok (subslice s lo hi) w.
Proof.
  intros [H1 H2] H3. unfold reslice.
  rewrite (proj2 (Z.leb_le 0 lo)), (proj2 (Z.leb_le lo hi)),
    (proj2 (Z.leb_le hi (cap s))) by lia.
  simpl. now destruct s.
Qed.

Lemma reslice_bounds (s : bytes) (lo hi : Z) w :
  ~ (0 <= lo <= hi /\ hi <= cap s) -> reslice s lo hi w = Panic SliceBounds w.
Proof.
  intros H. unfold reslice.
  destruct (0 <=? lo) eqn:E1, (lo <=? hi) eqn:E2, (hi <=? cap s) eqn:E3;
    simpl; try reflexivity.
  exfalso. apply H. lia.
Qed.

Lemma rd_ok {A} (f : Buffer -> A) w a o :
  objs w !! a = Some o -> rd f (Some a) w = Ok (f o) w.
Proof. intros H. unfold rd. now rewrite H. Qed.

Lemma wr_ok (g : Buffer -> Buffer) w a o :
  objs w !! a = Some o -> wr g (Some a) w = Ok tt (set_obj a (g o) w).
Proof. intros H. unfold wr. now rewrite H. Qed.

Ltac solve_live :=
  first [ assumption
        | eapply live_lookup; eassumption
        | apply live_mem_write; solve_live
        | apply live_set_obj; solve_live ].

Ltac solve_step :=
  first [ apply rd_set; solve_live
        | apply wr_set; solve_live
        | eapply rd_ok; eassumption
        | eapply wr_ok; eassumption
        | apply reslice_ok; simpl; lia
        | reflexivity ].

Ltac fields :=
  cbn [set_head set_pool set_Value set_offset head pool Value offset
       len cap s_arr s_off s_len s_cap fst snd].

Ltac step := erewrite bind_ok by solve_step; fields.

(** ** What each method does on a live buffer *)

Section Methods.

Variable grow : Z -> Z -> Z.
Variables (w : World) (a : nat).
Variables (hd : bytes) (q : poolref) (v : bytes) (off : Z).
Hypothesis Ho : objs w !! a = Some (MkBuffer hd q v off).

Lemma Clear_ok :
  16 <= cap hd ->
  Clear (Some a) w = Ok (Some a) (set_obj a (MkBuffer hd q (subslice hd 16 16) 16) w).
Proof.
  intros Hc. unfold Clear, defaultOffset.
  do 5 step. reflexivity.
Qed.

Lemma Clear_bounds :
  cap hd < 16 ->
  Clear (Some a) w = Panic SliceBounds (set_obj a (MkBuffer hd q v 16) w).
Proof.
  intros Hc. unfold Clear, defaultOffset.
  do 3 step. erewrite bind_panic; [reflexivity|].
  apply reslice_bounds. lia.
Qed.

Lemma Reset_ok :
  Reset (Some a) w = Ok (Some a) (set_obj a (MkBuffer hd q hd 16) w).
Proof. unfold Reset, defaultOffset. do 3 step. reflexivity. Qed.

Lemma SliceBack_ok (k : Z) :
  0 <= int_sub off k <= int_add off (len v) ->
  int_add off (len v) <= cap hd ->
  SliceBack (Some a) k w =
    Ok (Some a)
       (set_obj a (MkBuffer hd q (subslice hd (int_sub off k) (int_add off (len v)))
                     (int_sub off k)) w).
Proof.
  intros H1 H2. unfold SliceBack. step.
  rewrite (proj2 (Z.ltb_ge _ 0)) by lia.
  do 6 step. reflexivity.
Qed.

Lemma SliceBack_headroom (k : Z) :
  int_sub off k < 0 ->
  SliceBack (Some a) k w = Panic HeadroomExhausted w.
Proof.
  intros H1. unfold SliceBack. step.
  now rewrite (proj2 (Z.ltb_lt _ 0)) by lia.
Qed.

Lemma SliceBack_bounds (k : Z) :
  0 <= int_sub off k ->
  ~ (int_sub off k <= int_add off (len v) <= cap hd) ->
  SliceBack (Some a) k w = Panic SliceBounds w.
Proof.
  intros H1 H2. unfold SliceBack. step.
  rewrite (proj2 (Z.ltb_ge _ 0)) by lia.
  do 3 step. erewrite bind_panic; [reflexivity|].
  apply reslice_bounds. lia.
Qed.

Lemma Slice_ok (from to : Z) :
  0 <= from <= to -> to <= cap v ->
  Slice (Some a) from to w =
    Ok (Some a) (set_obj a (MkBuffer hd q (subslice v from to) (int_add off from)) w).
Proof.
  intros H1 H2. unfold Slice. do 5 step. reflexivity.
Qed.

Lemma Slice_bounds (from to : Z) :
  ~ (0 <= from <= to /\ to <= cap v) ->
  Slice (Some a) from to w =
    Panic SliceBounds (set_obj a (MkBuffer hd q v (int_add off from)) w).
Proof.
  intros H1. unfold Slice. do 3 step. erewrite bind_panic; [reflexivity|].
  now apply reslice_bounds.
Qed.

Lemma SliceFrom_ok (from : Z) :
  0 <= from <= len v -> len v <= cap v ->
  SliceFrom (Some a) from w =
    Ok (Some a) (set_obj a (MkBuffer hd q (subslice v from (len v)) (int_add off from)) w).
Proof.
  intros H1 H2. unfold SliceFrom. do 5 step. reflexivity.
Qed.

Lemma SliceFrom_bounds (from : Z) :
  ~ (0 <= from <= len v /\ len v <= cap v) ->
  SliceFrom (Some a) from w =
    Panic SliceBounds (set_obj a (MkBuffer hd q v (int_add off from)) w).
Proof.
  intros H1. unfold SliceFrom. do 3 step. erewrite bind_panic; [reflexivity|].
  now apply reslice_bounds.
Qed.

Lemma Len_ok : Len (Some a) w = Ok (len v) w.
Proof. unfold Len. step. reflexivity. Qed.

Lemma IsEmpty_ok : IsEmpty (Some a) w = Ok (len v =? 0) w.
Proof. unfold IsEmpty. erewrite bind_ok by apply Len_ok. reflexivity. Qed.

Lemma IsFull_ok : IsFull (Some a) w = Ok (len v =? cap v) w.
Proof. unfold IsFull. step. reflexivity. Qed.

Lemma Bytes_ok : Bytes (Some a) w = Ok v w.
Proof. unfold Bytes. now erewrite rd_ok by eassumption. Qed.

End Methods.

(** ** Construction *)

Lemma new_Buffer_lookup w :
  objs (MkWorld (mem w) (objs w ++ [MkBuffer None None None 0]) (pools w))
    !! length (objs w) = Some (MkBuffer None None None 0).
Proof. simpl. now apply list_lookup_middle. Qed.

Lemma set_obj_fresh w o o' :
  set_obj (length (objs w)) o' (MkWorld (mem w) (objs w ++ [o]) (pools w))
  = MkWorld (mem w) (objs w ++ [o']) (pools w).
Proof.
  unfold set_obj. simpl. f_equal.
  replace (length (objs w)) with (length (objs w) + 0)%nat by lia.
  now rewrite insert_app_r.
Qed.

Lemma CreateBuffer_ok (c : bytes) (q : poolref) w :
  16 <= len c <= cap c ->
  CreateBuffer c q w =
    Ok (Some (length (objs w)))
       (MkWorld (mem w) (objs w ++ [MkBuffer c q (subslice c 16 (len c)) 16])
          (pools w)).
Proof.
  intros Hc. unfold CreateBuffer, defaultOffset.
  erewrite bind_ok by reflexivity.
  pose proof (new_Buffer_lookup w) as Hn.
  do 6 step. unfold ret. now rewrite set_obj_fresh.
Qed.

Lemma CreateBuffer_bounds (c : bytes) (q : poolref) w :
  ~ (16 <= len c <= cap c) ->
  exists w', CreateBuffer c q w = Panic SliceBounds w'.
Proof.
  intros Hc. unfold CreateBuffer, defaultOffset.
  erewrite bind_ok by reflexivity.
  pose proof (new_Buffer_lookup w) as Hn.
  do 3 step. erewrite bind_panic; [eauto|].
  apply reslice_bounds. lia.
Qed.

Lemma CreateBuffer_inv (c : bytes) (q : poolref) w p w' :
  CreateBuffer c q w = Ok p w' ->
  16 <= len c <= cap c /\ p = Some (length (objs w)) /\
  w' = MkWorld (mem w) (objs w ++ [MkBuffer c q (subslice c 16 (len c)) 16])
         (pools w).
Proof.
  intros H. destruct (decide (16 <= len c <= cap c)) as [Hc|Hc].
  - rewrite CreateBuffer_ok in H by done. now inversion H.
  - destruct (CreateBuffer_bounds c q w Hc) as [w'' Hp]. congruence.
Qed.

Lemma Pool_Allocate_pool (qi : nat) w p w' :
  Pool_Allocate qi w = Ok p w' -> rd pool p w' = Ok (Some qi) w'.
Proof.
  unfold Pool_Allocate. intros H.
  destruct (pools w !! qi) as [po|]; [|discriminate].
  destruct (idle po) as [|s rest].
  - apply bind_inv_ok in H. destruct H as (c & w1 & _ & H).
    apply CreateBuffer_inv in H. destruct H as (_ & -> & ->).
    unfold rd. simpl. now rewrite list_lookup_middle.
  - apply CreateBuffer_inv in H. destruct H as (_ & -> & ->).
    unfold rd. simpl. now rewrite list_lookup_middle.
Qed.

(** ** C9: nil receivers *)

(** C9: [Len] and [Release] are total on the nil buffer: [Len] of nil is 0,
    so [IsEmpty] of nil is true, and [Release] of nil returns with the store
    untouched; none of them dereferences the receiver. *)
Theorem nil_receiver_total (w : World) :
  Len None w = Ok 0 w /\ IsEmpty None w = Ok true w /\ Release None w = Ok tt w.
Proof. repeat split. Qed.

(** ** C8: the size-class dispatcher *)

(** C8: for every requested size the dispatcher allocates from the pool of
    one class [c]: the small class exactly when the size does not exceed the
    small threshold, else the medium class exactly when it does not exceed
    the medium threshold, else the large class.  Whatever class has a
    capacity covering the size, [c] is no larger than it; and a Buffer that
    comes back refers to the pool of [c]. *)
Theorem NewBufferWithSize_smallest_class (S B L size : Z) :
  exists c,
    NewBufferWithSize S B size = Pool_Allocate (class_pool c) /\
    (c = Small <-> size <= S) /\
    (c = Medium <-> S < size <= B) /\
    (c = Large <-> S < size /\ B < size) /\
    (forall c', size <= class_capacity S B L c' -> (class_rank c <= class_rank c')%nat) /\
    (forall w p w', NewBufferWithSize S B size w = Ok p w' ->
       rd pool p w' = Ok (Some (class_pool c)) w').
Proof.
  unfold NewBufferWithSize, NewSmallBuffer, NewBuffer, NewLargeBuffer.
  destruct (size <=? S) eqn:E1; [|destruct (size <=? B) eqn:E2].
  - exists Small. apply Z.leb_le in E1.
    repeat split; try (intros; first [discriminate | lia]).
    + intros c' _. destruct c'; simpl; lia.
    + intros w p w'. apply Pool_Allocate_pool.
  - exists Medium. apply Z.leb_gt in E1. apply Z.leb_le in E2.
    repeat split; try (intros; first [discriminate | lia]).
    + intros c'. destruct c'; simpl; lia.
    + intros w p w'. apply Pool_Allocate_pool.
  - exists Large. apply Z.leb_gt in E1. apply Z.leb_gt in E2.
    repeat split; try (intros; first [discriminate | lia]).
    + intros c'. destruct c'; simpl; lia.
    + intros w p w'. apply Pool_Allocate_pool.
Qed.

(** ** C7: IsFull *)

(** C7 as stated fails: a fresh local buffer over a 32-byte store is full
    although its window holds 16 bytes, not the store's 32. *)
Lemma IsFull_fresh_buffer_below_capacity :
  exists w o,
    NewLocalBuffer 32 empty_world = Ok (Some 0%nat) w /\
    objs w !! 0%nat = Some o /\
    IsFull (Some 0%nat) w = Ok true w /\
    len (Value o) = 16 /\ cap (head o) = 32 /\
    len (Value o) <> cap (head o).
Proof.
  eexists. eexists.
  split; [reflexivity|]. split; [reflexivity|]. split; [reflexivity|].
  split; [reflexivity|]. split; [reflexivity|]. vm_compute. discriminate.
Qed.

(** C7, amended: [IsFull] returns true exactly when the window length equals
    the capacity of the window's own slice, which counts from the window
    start; for an aliased buffer that is when the window ends where the
    backing store ends (no tail room left without growth). *)
Theorem IsFull_iff_no_tail_room (w : World) (a : nat) (o : Buffer) :
  objs w !! a = Some o ->
  exists full : bool,
    IsFull (Some a) w = Ok full w /\
    (full = true <-> len (Value o) = cap (Value o)) /\
    (aliased o -> (full = true <-> offset o + len (Value o) = cap (head o))).
Proof.
  intros Ho. destruct o as [hd q v off].
  exists (len v =? cap v). split; [now apply IsFull_ok with hd q off|].
  split; [apply Z.eqb_eq|].
  intros (H1 & H2 & H3 & _ & H4 & H5). simpl in *.
  rewrite Z.eqb_eq. destruct hd as [h|]; [|done].
  rewrite H5 at 2. simpl. lia.
Qed.

(** The amended C7 on the fresh pooled buffer of [demo_world]: full, with
    16 bytes in a 32-byte store. *)
Lemma IsFull_iff_no_tail_room_witness :
  exists full : bool,
    IsFull (Some 0%nat)
      (MkWorld [replicate 32 Byte.x00]
         [MkBuffer (Some (MkSlice 0 0 32 32)) None (Some (MkSlice 0 16 16 16)) 16] [])
    = Ok full
        (MkWorld [replicate 32 Byte.x00]
           [MkBuffer (Some (MkSlice 0 0 32 32)) None (Some (MkSlice 0 16 16 16)) 16] []) /\
    (full = true <-> 16 = 16) /\
    (aliased (MkBuffer (Some (MkSlice 0 0 32 32)) None (Some (MkSlice 0 16 16 16)) 16) ->
     (full = true <-> 16 + 16 = 32)).
Proof.
  apply (IsFull_iff_no_tail_room
           (MkWorld [replicate 32 Byte.x00]
              [MkBuffer (Some (MkSlice 0 0 32 32)) None (Some (MkSlice 0 16 16 16)) 16] [])
           0%nat
           (MkBuffer (Some (MkSlice 0 0 32 32)) None (Some (MkSlice 0 16 16 16)) 16)).
  reflexivity.
Defined.

(** ** C3: Release *)

Lemma Release_released w a q v off :
  objs w !! a = Some (MkBuffer None q v off) -> Release (Some a) w = Ok tt w.
Proof. intros Ho. unfold Release. step. reflexivity. Qed.

Lemma Pool_Free_ok w a o qi po :
  objs w !! a = Some o -> pools w !! qi = Some po ->
  Pool_Free qi (Some a) w = Ok tt (set_poolobj qi (give_back (head o) po) w).
Proof.
  intros Ho Hq. unfold Pool_Free. step. now rewrite Hq.
Qed.

(** C3: on a live buffer (non-nil backing store) [Release] hands the store
    to the buffer's pool once, when it has one, and clears the three
    references (backing store, window, pool); a second [Release] returns
    without changing anything: the store, the pools and the buffer object
    are as the first call left them. *)
Theorem Release_clears_and_is_idempotent (w : World) (a : nat) (o : Buffer) :
  objs w !! a = Some o ->
  head o <> None ->
  (forall qi, pool o = Some qi -> is_Some (pools w !! qi)) ->
  exists w1,
    Release (Some a) w = Ok tt w1 /\
    objs w1 = <[a := MkBuffer None None None (offset o)]> (objs w) /\
    mem w1 = mem w /\
    pools w1 = match pool o with
               | Some qi => alter (give_back (head o)) qi (pools w)
               | None => pools w
               end /\
    Release (Some a) w1 = Ok tt w1.
Proof.
  intros Ho Hh Hq. destruct o as [[h|] q v off]; [clear Hh|done]. simpl in *.
  assert (Hl : live w a) by (eapply live_lookup; eassumption).
  destruct q as [qi|].
  - destruct (Hq qi eq_refl) as [po Hpo].
    eexists. split; [|split; [|split; [|split]]].
    + unfold Release. do 2 step.
      erewrite bind_ok by (eapply Pool_Free_ok; eassumption). fields.
      assert (Ho' : objs (set_poolobj qi (give_back (Some h) po) w) !! a
                    = Some (MkBuffer (Some h) (Some qi) v off)) by exact Ho.
      step. step. erewrite wr_set by exact Hl. fields. reflexivity.
    + reflexivity.
    + reflexivity.
    + simpl. apply list_eq. intros i.
      destruct (decide (i = qi)) as [->|Hne].
      * rewrite list_lookup_insert_eq by (eapply lookup_lt_Some; eassumption).
        rewrite list_lookup_alter_eq, Hpo. reflexivity.
      * rewrite list_lookup_insert_ne, list_lookup_alter_ne by done. reflexivity.
    + eapply Release_released. simpl. apply list_lookup_insert_eq. exact Hl.
  - eexists. split; [|split; [|split; [|split]]].
    + unfold Release. do 2 step. erewrite bind_ok by reflexivity.
      step. step. erewrite wr_set by exact Hl. fields. reflexivity.
    + reflexivity.
    + reflexivity.
    + reflexivity.
    + eapply Release_released. simpl. apply list_lookup_insert_eq. exact Hl.
Qed.

Lemma demo_world_allocated :
  Pool_Allocate 0 (MkWorld [] [] [MkPool 32 []]) = Ok (Some 0%nat) demo_world.
Proof. reflexivity. Qed.

(** C3 on [demo_world]: the 32-byte store goes back to pool 0 once. *)
Lemma Release_clears_and_is_idempotent_witness :
  exists w1,
    Release (Some 0%nat) demo_world = Ok tt w1 /\
    objs w1 = [MkBuffer None None None 16] /\
    mem w1 = mem demo_world /\
    pools w1 = [MkPool 32 [Some (MkSlice 0 0 32 32)]] /\
    Release (Some 0%nat) w1 = Ok tt w1.
Proof.
  apply (Release_clears_and_is_idempotent demo_world 0%nat demo_buffer).
  - reflexivity.
  - discriminate.
  - intros qi Hq. inversion Hq. subst qi. eexists. reflexivity.
Defined.

(** ** C4 and C1: Reset *)

Lemma wrap_overflow (z : Z) : max_int < z <= 2 * max_int -> wrap z < 0.
Proof.
  unfold max_int, wrap. intros Hz.
  replace (z + 2 ^ 63) with ((z - 2 ^ 63) + 1 * 2 ^ 64) by lia.
  rewrite Z_mod_plus_full, Z.mod_small by lia. lia.
Qed.

(** After [Reset] the window is the whole store while the tracked offset is
    16: on a store as [make] provides it (length equal to capacity) no
    backward extension returns any more, not even the empty one. *)
Lemma SliceBack_after_Reset_panics w a h q v off k :
  objs w !! a = Some (MkBuffer (Some h) q v off) ->
  0 <= s_len h -> s_len h = s_cap h -> s_cap h <= max_int ->
  exists w1 f w2,
    Reset (Some a) w = Ok (Some a) w1 /\
    Len (Some a) w1 = Ok (s_len h) w1 /\
    rd offset (Some a) w1 = Ok 16 w1 /\
    SliceBack (Some a) k w1 = Panic f w2.
Proof.
  intros Ho H0 Hlen Hcap.
  assert (Hl : live w a) by (eapply live_lookup; eassumption).
  pose proof (objs_set_obj w a (MkBuffer (Some h) q (Some h) 16) Hl) as Ho1.
  exists (set_obj a (MkBuffer (Some h) q (Some h) 16) w).
  destruct (Z.lt_ge_cases (int_sub 16 k) 0) as [Hn|Hn].
  - do 2 eexists. split; [eapply Reset_ok; eassumption|].
    split; [exact (Len_ok _ _ _ _ _ _ Ho1)|].
    split; [exact (rd_ok offset _ _ _ Ho1)|].
    eapply SliceBack_headroom; eassumption.
  - do 2 eexists. split; [eapply Reset_ok; eassumption|].
    split; [exact (Len_ok _ _ _ _ _ _ Ho1)|].
    split; [exact (rd_ok offset _ _ _ Ho1)|].
    eapply SliceBack_bounds; [eassumption|exact Hn|]. simpl.
    intros [H1 H2]. unfold int_add in *.
    destruct (Z.le_gt_cases (16 + s_len h) max_int) as [Hs|Hs].
    + rewrite wrap_id in H2 by (unfold min_int; lia). lia.
    + pose proof (wrap_overflow (16 + s_len h)). unfold max_int in *. lia.
Qed.

(** C4: [Reset] shows the whole store, so [Len] is the store's length, but
    it leaves the tracked offset at 16: on a fresh 32-byte local buffer the
    backward extension by 0 bytes, a no-op for a window that starts at 0,
    panics with slice bounds out of range, and [Slice(0, 32)] keeps the
    offset at 16. *)
Theorem Reset_offset_not_window_start :
  (do b <- NewLocalBuffer 32; do_ Reset b;
   do n <- Len b; do o <- rd offset b; ret (n, o)) empty_world
  = Ok (32, 16)
      (MkWorld [replicate 32 Byte.x00]
         [MkBuffer (Some (MkSlice 0 0 32 32)) None (Some (MkSlice 0 0 32 32)) 16] []) /\
  (do b <- NewLocalBuffer 32; do_ Reset b; SliceBack b 0) empty_world
  = Panic SliceBounds
      (MkWorld [replicate 32 Byte.x00]
         [MkBuffer (Some (MkSlice 0 0 32 32)) None (Some (MkSlice 0 0 32 32)) 16] []) /\
  (do b <- NewLocalBuffer 32; do_ Reset b; do_ Slice b 0 32; rd offset b) empty_world
  = Ok 16
      (MkWorld [replicate 32 Byte.x00]
         [MkBuffer (Some (MkSlice 0 0 32 32)) None (Some (MkSlice 0 0 32 32)) 16] []).
Proof. repeat split; vm_compute; reflexivity. Qed.

(** C1: on a fresh 32-byte local buffer that has just been [Reset],
    prepending a single byte does not succeed: it panics with slice bounds
    out of range, which is not the headroom panic either. *)
Theorem Prepend_after_Reset_panics :
  (do b <- NewLocalBuffer 32; do_ Reset b; Prepend b [Byte.x01]) empty_world
  = Panic SliceBounds
      (MkWorld [replicate 32 Byte.x00]
         [MkBuffer (Some (MkSlice 0 0 32 32)) None (Some (MkSlice 0 0 32 32)) 16] []).
Proof. vm_compute. reflexivity. Qed.

(** ** Memory: reading after writing *)

Lemma length_splice (l : list byte) pos data :
  length (splice l pos data) = length l.
Proof.
  unfold splice. rewrite length_take, !length_app, length_take, length_drop. lia.
Qed.

Lemma splice_in_bounds (l : list byte) pos data :
  (pos + length data <= length l)%nat ->
  splice l pos data = take pos l ++ data ++ drop (pos + length data)%nat l.
Proof.
  intros H. unfold splice. apply take_ge.
  rewrite !length_app, length_take, length_drop. lia.
Qed.

Lemma splice_read_written (l : list byte) pos data n :
  (pos + length data <= length l)%nat -> (n <= length data)%nat ->
  take n (drop pos (splice l pos data)) = take n data.
Proof.
  intros H Hn. rewrite splice_in_bounds by done.
  rewrite drop_app_length' by (rewrite length_take; lia).
  now rewrite take_app_le.
Qed.

Lemma splice_lookup_outside (l : list byte) pos data i :
  (pos + length data <= length l)%nat ->
  (i < pos \/ pos + length data <= i)%nat ->
  splice l pos data !! i = l !! i.
Proof.
  intros H Hi. rewrite splice_in_bounds by done. destruct Hi as [Hi|Hi].
  - rewrite lookup_app_l by (rewrite length_take; lia).
    now apply lookup_take_lt.
  - rewrite lookup_app_r by (rewrite length_take; lia).
    rewrite lookup_app_r by (rewrite length_take; lia).
    rewrite lookup_drop, length_take. f_equal. lia.
Qed.

Lemma splice_read_elsewhere (l : list byte) pos data p n :
  (pos + length data <= length l)%nat ->
  (p + n <= pos \/ pos + length data <= p)%nat ->
  take n (drop p (splice l pos data)) = take n (drop p l).
Proof.
  intros H Hd. apply list_eq. intros i.
  rewrite !lookup_take, !lookup_drop.
  destruct (decide (i < n)%nat) as [Hi|Hi]; [|done].
  apply splice_lookup_outside; [done|lia].
Qed.

Lemma mem_write_lookup_eq w arr pos data l :
  mem w !! arr = Some l ->
  mem (mem_write arr pos data w) !! arr = Some (splice l (Z.to_nat pos) data).
Proof.
  intros H. unfold mem_write. rewrite H. simpl.
  apply list_lookup_insert_eq. eapply lookup_lt_Some. eassumption.
Qed.

Lemma mem_write_lookup_ne w arr arr' pos data :
  arr <> arr' -> mem (mem_write arr pos data w) !! arr' = mem w !! arr'.
Proof.
  intros H. unfold mem_write. destruct (mem w !! arr); [|done]. simpl.
  now apply list_lookup_insert_ne.
Qed.

Lemma length_mem_write w arr pos data :
  length (mem (mem_write arr pos data w)) = length (mem w).
Proof.
  unfold mem_write. destruct (mem w !! arr); [|done]. simpl.
  apply length_insert.
Qed.

Lemma mem_read_written w arr pos data l n :
  mem w !! arr = Some l ->
  0 <= pos -> pos + Z.of_nat (length data) <= Z.of_nat (length l) ->
  0 <= n <= Z.of_nat (length data) ->
  mem_read (mem_write arr pos data w) arr pos n = take (Z.to_nat n) data.
Proof.
  intros Hl Hp Hb Hn. unfold mem_read.
  rewrite (mem_write_lookup_eq _ _ _ _ _ Hl).
  apply splice_read_written; lia.
Qed.

Lemma mem_read_other_array w arr arr' pos data p n :
  arr <> arr' ->
  mem_read (mem_write arr pos data w) arr' p n = mem_read w arr' p n.
Proof.
  intros H. unfold mem_read. now rewrite mem_write_lookup_ne.
Qed.

Lemma mem_read_elsewhere w arr pos data l p n :
  mem w !! arr = Some l ->
  0 <= pos -> pos + Z.of_nat (length data) <= Z.of_nat (length l) ->
  0 <= p -> 0 <= n ->
  p + n <= pos \/ pos + Z.of_nat (length data) <= p ->
  mem_read (mem_write arr pos data w) arr p n = mem_read w arr p n.
Proof.
  intros Hl Hp Hb Hp' Hn Hd. unfold mem_read.
  rewrite (mem_write_lookup_eq _ _ _ _ _ Hl), Hl.
  apply splice_read_elsewhere; lia.
Qed.

Lemma mem_read_split w arr p n m :
  0 <= p -> 0 <= n -> 0 <= m ->
  mem_read w arr p (n + m) = mem_read w arr p n ++ mem_read w arr (p + n) m.
Proof.
  intros Hp Hn Hm. unfold mem_read. destruct (mem w !! arr) as [l|]; [|done].
  rewrite Z2Nat.inj_add, <- take_take_drop, drop_drop, Z2Nat.inj_add by lia.
  reflexivity.
Qed.

Lemma length_mem_read w arr p n l :
  mem w !! arr = Some l ->
  0 <= p -> 0 <= n -> p + n <= Z.of_nat (length l) ->
  Z.of_nat (length (mem_read w arr p n)) = n.
Proof.
  intros Hl Hp Hn Hb. unfold mem_read. rewrite Hl.
  rewrite length_take, length_drop. lia.
Qed.

Lemma slice_ok_mem_write w arr pos data s :
  slice_ok w s -> slice_ok (mem_write arr pos data w) s.
Proof.
  destruct s as [h|]; [|done]. unfold slice_ok.
  destruct (decide (arr = s_arr h)) as [->|Hne].
  - destruct (mem w !! s_arr h) as [l|] eqn:Hl; [|done].
    rewrite (mem_write_lookup_eq _ _ _ _ _ Hl), length_splice. done.
  - now rewrite mem_write_lookup_ne.
Qed.

Lemma slice_ok_set_obj w a o s : slice_ok (set_obj a o w) s <-> slice_ok w s.
Proof. reflexivity. Qed.

Lemma slice_ok_subslice w s lo hi :
  slice_ok w s -> 0 <= lo <= hi -> hi <= cap s -> slice_ok w (subslice s lo hi).
Proof.
  destruct s as [h|]; [|done]. unfold slice_ok. simpl.
  destruct (mem w !! s_arr h); [|done]. lia.
Qed.

Lemma contents_set_obj w a o s : contents (set_obj a o w) s = contents w s.
Proof. reflexivity. Qed.

Lemma mem_read_drop w arr p m n :
  0 <= p -> 0 <= n <= m ->
  drop (Z.to_nat n) (mem_read w arr p m) = mem_read w arr (p + n) (m - n).
Proof.
  intros Hp Hn. unfold mem_read.
  destruct (mem w !! arr) as [l|]; [|apply drop_nil].
  rewrite skipn_firstn_comm, drop_drop.
  rewrite Z2Nat.inj_add, Z2Nat.inj_sub by lia. reflexivity.
Qed.

Lemma length_contents w (s : bytes) :
  slice_ok w s -> Z.of_nat (length (contents w s)) = len s.
Proof.
  destruct s as [h|]; [|done]. unfold slice_ok, contents. simpl.
  destruct (mem w !! s_arr h) as [l|] eqn:Hl; [|done]. intros (H1 & H2 & H3).
  eapply length_mem_read; [eassumption|lia..].
Qed.

(** ** Read *)

Lemma Read_eof w a o (data : bytes) :
  objs w !! a = Some o -> len (Value o) = 0 ->
  Read (Some a) data w = Ok (0, Some EOF) w.
Proof.
  intros Ho Hz. destruct o as [hd q v off]. simpl in Hz. unfold Read.
  erewrite bind_ok by (eapply Len_ok; eassumption).
  now rewrite Hz.
Qed.

Section ReadSpec.

Variables (w : World) (a : nat).
Variables (hd : bytes) (q : poolref) (vs : slice) (off : Z) (d : slice).
Hypothesis Ho : objs w !! a = Some (MkBuffer hd q (Some vs) off).
Hypothesis Hv : slice_ok w (Some vs).
Hypothesis Hd : slice_ok w (Some d).
Hypothesis Hpos : 0 < s_len vs.

Lemma Read_copy :
  copy (Some d) (contents w (Some vs)) w
  = Ok (Z.min (s_len d) (s_len vs)) (copied w d vs).
Proof.
  unfold copy, copied. simpl len.
  rewrite (length_contents w (Some vs) Hv). reflexivity.
Qed.

Lemma Read_partial :
  s_len d < s_len vs ->
  Read (Some a) (Some d) w
  = Ok (s_len d, None)
       (set_obj a (MkBuffer hd q (subslice (Some vs) (s_len d) (s_len vs))
                     (int_add off (s_len d)))
          (copied w d vs)).
Proof.
  intros Hlt. unfold Read.
  assert (Hd' := Hd). unfold slice_ok in Hd'.
  destruct (mem w !! s_arr d) as [ld|] eqn:Hld; [|done].
  destruct Hd' as (Hd1 & Hd2 & Hd3).
  assert (Hv' := Hv). unfold slice_ok in Hv'.
  destruct (mem w !! s_arr vs) as [lv|] eqn:Hlv; [|done].
  destruct Hv' as (Hv1 & Hv2 & Hv3).
  erewrite bind_ok by (eapply Len_ok; eassumption). fields.
  rewrite (proj2 (Z.eqb_neq _ 0)) by lia.
  step. erewrite bind_ok by reflexivity.
  erewrite bind_ok by apply Read_copy.
  assert (Ho1 : objs (copied w d vs) !! a
                = Some (MkBuffer hd q (Some vs) off))
    by (unfold copied; now rewrite objs_mem_write).
  erewrite bind_ok by (eapply Len_ok; eassumption). fields.
  rewrite Z.min_l by lia.
  rewrite (proj2 (Z.eqb_neq _ _)) by lia.
  do 5 step. reflexivity.
Qed.

Lemma Read_full :
  s_len vs <= s_len d -> 16 <= cap hd ->
  Read (Some a) (Some d) w
  = Ok (s_len vs, None)
       (set_obj a (MkBuffer hd q (subslice hd 16 16) 16) (copied w d vs)).
Proof.
  intros Hle Hc. unfold Read.
  erewrite bind_ok by (eapply Len_ok; eassumption). fields.
  rewrite (proj2 (Z.eqb_neq _ 0)) by lia.
  step. erewrite bind_ok by reflexivity.
  erewrite bind_ok by apply Read_copy.
  assert (Ho1 : objs (copied w d vs) !! a
                = Some (MkBuffer hd q (Some vs) off))
    by (unfold copied; now rewrite objs_mem_write).
  erewrite bind_ok by (eapply Len_ok; eassumption). fields.
  rewrite Z.min_r by lia. rewrite Z.eqb_refl.
  erewrite bind_ok by (eapply Clear_ok; eassumption).
  reflexivity.
Qed.

(** What the destination holds afterwards: the front of the window. *)
Lemma copied_destination :
  contents (copied w d vs) (subslice (Some d) 0 (Z.min (s_len d) (s_len vs)))
  = take (Z.to_nat (Z.min (s_len d) (s_len vs))) (contents w (Some vs)).
Proof.
  assert (Hd' := Hd). unfold slice_ok in Hd'.
  destruct (mem w !! s_arr d) as [ld|] eqn:Hld; [|done].
  destruct Hd' as (Hd1 & Hd2 & Hd3).
  pose proof (length_contents w (Some vs) Hv) as Hlen. simpl in Hlen.
  unfold copied, contents at 1. simpl.
  rewrite Z.add_0_r, Z.sub_0_r.
  erewrite mem_read_written; [|eassumption|lia|..].
  - rewrite take_take. f_equal. lia.
  - rewrite length_take. lia.
  - rewrite length_take. lia.
Qed.

(** The window's array is left alone when the destination is elsewhere. *)
Lemma copied_window (s : bytes) :
  s_arr d <> s_arr vs ->
  (forall h, s = Some h -> s_arr h = s_arr vs) ->
  contents (copied w d vs) s = contents w s.
Proof.
  intros Hne Hs. destruct s as [h|]; [|done]. unfold copied. simpl.
  apply mem_read_other_array. rewrite (Hs h eq_refl). done.
Qed.

Lemma copied_slice_ok (s : bytes) : slice_ok w s -> slice_ok (copied w d vs) s.
Proof. apply slice_ok_mem_write. Qed.

End ReadSpec.

(** ** C5: what one Read does *)

(** C5 as stated fails where the drain takes every held byte: a buffer
    holding 5 bytes from offset 16 on, drained into a 5-byte destination,
    returns 5 bytes and its start is back at 16, not advanced to 21. *)
Lemma Read_full_drain_resets_start :
  exists w',
    (do b <- NewLocalBuffer 32;
     do_ Clear b;
     do_ Append doubling b
           [Byte.x68; Byte.x65; Byte.x6c; Byte.x6c; Byte.x6f];
     do dst <- make 5;
     do before <- rd offset b;
     do r <- Read b dst;
     do after <- rd offset b;
     ret (before, r, after)) empty_world
    = Ok (16, (5, None), 16) w' /\
    16 <> 16 + 5.
Proof. eexists. split; [vm_compute; reflexivity|lia]. Qed.

(** C5, amended: draining a buffer that holds [L > 0] bytes into a
    destination of length [n] returns [min n L] bytes, the front of the
    window, and leaves a window of [L - min n L] bytes holding the rest;
    while bytes remain the start has advanced by that amount, and when the
    drain took every byte the buffer is cleared instead (empty window at
    offset 16).  Draining an empty window returns 0 bytes with [EOF] and
    changes nothing.  In particular, from 5 held bytes a 3-byte drain returns
    3 bytes and leaves 2, the next returns those 2, the next returns [EOF]. *)
Theorem Read_drains_front :
  (forall (w : World) (a : nat) (o : Buffer) (vs d : slice),
     objs w !! a = Some o ->
     Value o = Some vs ->
     slice_ok w (Some vs) -> slice_ok w (Some d) ->
     s_arr d <> s_arr vs ->
     16 <= cap (head o) ->
     let L := s_len vs in
     let k := Z.min (s_len d) L in
     if L =? 0 then Read (Some a) (Some d) w = Ok (0, Some EOF) w
     else
       exists w' o',
         Read (Some a) (Some d) w = Ok (k, None) w' /\
         objs w' !! a = Some o' /\
         contents w' (subslice (Some d) 0 k) = take (Z.to_nat k) (contents w (Value o)) /\
         len (Value o') = L - k /\
         contents w' (Value o') = drop (Z.to_nat k) (contents w (Value o)) /\
         head o' = head o /\
         if k <? L
         then offset o' = int_add (offset o) k /\ Value o' = subslice (Value o) k L
         else offset o' = 16 /\ Value o' = subslice (head o) 16 16) /\
  (forall grow, exists w',
     (do b <- NewLocalBuffer 32;
      do_ Clear b;
      do_ Append grow b [Byte.x68; Byte.x65; Byte.x6c; Byte.x6c; Byte.x6f];
      do dst <- make 3;
      do r1 <- Read b dst;
      do got1 <- reslice dst 0 (fst r1);
      do c1 <- get_contents got1;
      do left <- Len b;
      do r2 <- Read b dst;
      do got2 <- reslice dst 0 (fst r2);
      do c2 <- get_contents got2;
      do r3 <- Read b dst;
      ret (r1, c1, left, (r2, c2), r3)) empty_world
     = Ok ((3, None), [Byte.x68; Byte.x65; Byte.x6c], 2,
           ((2, None), [Byte.x6c; Byte.x6f]), (0, Some EOF)) w').
Proof.
  split.
  - intros w a o vs d Ho HV Hv Hd Hne Hc L k.
    destruct o as [hd q v off]. simpl in HV, Hc. subst v.
    destruct (L =? 0) eqn:EL.
    { apply Z.eqb_eq in EL. eapply Read_eof; [eassumption|exact EL]. }
    apply Z.eqb_neq in EL.
    assert (Hv' := Hv). unfold slice_ok in Hv'.
    destruct (mem w !! s_arr vs) as [lv|] eqn:Hlv; [|done].
    destruct Hv' as (Hv1 & Hv2 & Hv3).
    assert (Hd' := Hd). unfold slice_ok in Hd'.
    destruct (mem w !! s_arr d) as [ld|] eqn:Hld; [|done].
    destruct Hd' as (Hd1 & Hd2 & Hd3).
    assert (HL : 0 < L) by (unfold L; lia).
    assert (Hl : live (copied w d vs) a).
    { unfold copied. apply live_mem_write. eapply live_lookup; eassumption. }
    pose proof (copied_destination w vs d Hv Hd HL) as Hdst.
    destruct (k <? L) eqn:EK.
    + apply Z.ltb_lt in EK.
      assert (Hk : k = s_len d) by (unfold k in *; lia).
      do 2 eexists. split; [|split; [|split; [|split; [|split; [|split]]]]].
      * rewrite Hk. eapply Read_partial; try eassumption. lia.
      * apply objs_set_obj. exact Hl.
      * exact Hdst.
      * simpl. lia.
      * rewrite contents_set_obj.
        rewrite (copied_window w vs d); [|done|now intros h [= <-]].
        simpl. rewrite mem_read_drop by lia. now rewrite Hk.
      * reflexivity.
      * simpl. rewrite Hk. done.
    + apply Z.ltb_ge in EK.
      assert (Hk : k = L) by (unfold k in *; lia).
      do 2 eexists. split; [|split; [|split; [|split; [|split; [|split]]]]].
      * rewrite Hk. eapply Read_full; try eassumption. unfold k, L in *. lia.
      * apply objs_set_obj. exact Hl.
      * exact Hdst.
      * destruct hd; simpl; lia.
      * rewrite contents_set_obj.
        pose proof (length_contents w (Some vs) Hv) as Hlen. simpl in Hlen.
        rewrite drop_ge by (simpl; lia).
        destruct hd as [h|]; [|done]. simpl. unfold mem_read.
        replace (16 - 16) with 0 by lia.
        now destruct (mem (copied w d vs) !! s_arr h).
      * reflexivity.
      * done.
  - intros grow. eexists. vm_compute. reflexivity.
Qed.

(** ** Append *)

Lemma slice_ok_alloc w l (s : bytes) :
  slice_ok w s -> slice_ok (set_mem (mem w ++ [l]) w) s.
Proof.
  destruct s as [h|]; [|done]. unfold slice_ok. simpl.
  destruct (mem w !! s_arr h) as [l'|] eqn:Hl; [|done].
  now rewrite (lookup_app_l_Some _ _ _ _ Hl).
Qed.

Lemma slice_ok_lt w h : slice_ok w (Some h) -> (s_arr h < length (mem w))%nat.
Proof.
  unfold slice_ok. destruct (mem w !! s_arr h) as [l|] eqn:Hl; [|done].
  intros _. eapply lookup_lt_Some. eassumption.
Qed.

Section AppendSpec.

Variable grow : Z -> Z -> Z.
Variables (w : World) (a : nat).
Variables (hd : bytes) (q : poolref) (vs : slice) (off : Z).
Variable data : list byte.
Hypothesis Ho : objs w !! a = Some (MkBuffer hd q (Some vs) off).

Lemma Append_in_place :
  s_len vs + Z.of_nat (length data) <= s_cap vs ->
  Append grow (Some a) data w
  = Ok (Some a)
       (set_obj a
          (MkBuffer hd q
             (Some (MkSlice (s_arr vs) (s_off vs)
                      (s_len vs + Z.of_nat (length data)) (s_cap vs))) off)
          (mem_write (s_arr vs) (s_off vs + s_len vs) data w)).
Proof.
  intros Hfit. unfold Append. step.
  erewrite bind_ok.
  2:{ unfold append. cbn [len cap].
      rewrite (proj2 (Z.leb_le _ _)) by lia. reflexivity. }
  fields.
  assert (Ho1 : objs (mem_write (s_arr vs) (s_off vs + s_len vs) data w) !! a
                = Some (MkBuffer hd q (Some vs) off))
    by now rewrite objs_mem_write.
  step. reflexivity.
Qed.

Lemma Append_regrows :
  s_cap vs < s_len vs + Z.of_nat (length data) <= max_int ->
  Append grow (Some a) data w
  = Ok (Some a)
       (set_obj a
          (MkBuffer hd q
             (Some (MkSlice (length (mem w)) 0
                      (s_len vs + Z.of_nat (length data))
                      (newcap grow (s_cap vs) (s_len vs + Z.of_nat (length data)))))
             off)
          (set_mem
             (mem w ++
              [contents w (Some vs) ++ data ++
               replicate
                 (Z.to_nat (newcap grow (s_cap vs) (s_len vs + Z.of_nat (length data))
                            - (s_len vs + Z.of_nat (length data))))
                 Byte.x00]) w)).
Proof.
  intros Hbig. unfold Append. step.
  erewrite bind_ok.
  2:{ unfold append. cbn [len cap].
      rewrite (proj2 (Z.leb_gt _ _)) by lia.
      rewrite (proj2 (Z.leb_le _ _)) by lia. reflexivity. }
  fields.
  match goal with |- context [set_mem ?m w] =>
    assert (Ho1 : objs (set_mem m w) !! a = Some (MkBuffer hd q (Some vs) off))
      by exact Ho
  end.
  step. reflexivity.
Qed.

(** Appending to a live window never fails below the length limit of a
    slice: the window then shows its old bytes followed by the new ones,
    whether it stayed in place or moved to a fresh array. *)
Lemma Append_spec :
  slice_ok w (Some vs) ->
  s_len vs + Z.of_nat (length data) <= max_int ->
  exists w' vs',
    Append grow (Some a) data w = Ok (Some a) w' /\
    objs w' !! a = Some (MkBuffer hd q (Some vs') off) /\
    s_len vs' = s_len vs + Z.of_nat (length data) /\
    contents w' (Some vs') = contents w (Some vs) ++ data /\
    slice_ok w' (Some vs') /\
    (forall s, slice_ok w s -> slice_ok w' s) /\
    (s_arr vs' = s_arr vs \/ s_arr vs' = length (mem w)).
Proof.
  intros Hv Hmax.
  assert (Hl : live w a) by (eapply live_lookup; eassumption).
  assert (Hv' := Hv). unfold slice_ok in Hv'.
  destruct (mem w !! s_arr vs) as [lv|] eqn:Hlv; [|done].
  destruct Hv' as (Hv1 & Hv2 & Hv3).
  destruct (Z.le_gt_cases (s_len vs + Z.of_nat (length data)) (s_cap vs))
    as [Hfit|Hbig].
  - do 2 eexists. split; [now apply Append_in_place|].
    split; [apply objs_set_obj; now apply live_mem_write|].
    split; [reflexivity|]. split; [|split; [|split]].
    + rewrite contents_set_obj. simpl.
      rewrite mem_read_split by lia. f_equal.
      * eapply mem_read_elsewhere; [eassumption|lia..].
      * erewrite mem_read_written; [|eassumption|lia..].
        rewrite Nat2Z.id. apply take_ge. lia.
    + apply slice_ok_set_obj. unfold slice_ok. simpl.
      rewrite (mem_write_lookup_eq _ _ _ _ _ Hlv), length_splice. lia.
    + intros s Hs. apply slice_ok_set_obj. now apply slice_ok_mem_write.
    + now left.
  - pose proof (Z.le_max_l (s_len vs + Z.of_nat (length data))
                  (grow (s_cap vs) (s_len vs + Z.of_nat (length data)))) as Hc.
    fold (newcap grow (s_cap vs) (s_len vs + Z.of_nat (length data))) in Hc.
    pose proof (length_contents w (Some vs) Hv) as Hlen. simpl in Hlen.
    do 2 eexists. split; [apply Append_regrows; lia|].
    split; [apply objs_set_obj; exact Hl|].
    split; [reflexivity|]. split; [|split; [|split]].
    + rewrite contents_set_obj. unfold contents at 1, mem_read. simpl.
      rewrite list_lookup_middle by done. simpl.
      rewrite app_assoc. apply take_app_length'.
      rewrite length_app. lia.
    + apply slice_ok_set_obj. unfold slice_ok. simpl.
      rewrite list_lookup_middle by done.
      rewrite !length_app, length_replicate. lia.
    + intros s Hs. apply slice_ok_set_obj. now apply slice_ok_alloc.
    + now right.
Qed.

End AppendSpec.

(** ** C2: round trip *)

Lemma drain_empty fuel w a o (d : bytes) :
  objs w !! a = Some o -> len (Value o) = 0 ->
  drain (S fuel) (Some a) d w = Ok (Some ([], EOF)) w.
Proof.
  intros Ho Hz. simpl.
  erewrite bind_ok by (eapply Read_eof; eassumption). reflexivity.
Qed.

Lemma drain_S fuel (b : ptr) (dst : bytes) :
  drain (S fuel) b dst
  = do r <- Read b dst;
    match r with
    | (_, Some e) => ret (Some ([], e))
    | (n, None) =>
        do got <- reslice dst 0 n;
        do chunk <- get_contents got;
        do rest <- drain fuel b dst;
        ret (match rest with
             | Some (bs, e) => Some (chunk ++ bs, e)
             | None => None
             end)
    end.
Proof. reflexivity. Qed.

(** With more fuel than bytes in the window, draining into a non-empty
    destination elsewhere returns the window's bytes and ends on [EOF],
    leaving an empty window. *)
Lemma drain_window fuel :
  forall w a hd q vs off d,
    objs w !! a = Some (MkBuffer hd q (Some vs) off) ->
    slice_ok w (Some vs) -> slice_ok w (Some d) ->
    0 < s_len d -> s_arr d <> s_arr vs -> 16 <= cap hd ->
    s_len vs < Z.of_nat fuel ->
    exists w' o',
      drain fuel (Some a) (Some d) w = Ok (Some (contents w (Some vs), EOF)) w' /\
      objs w' !! a = Some o' /\ len (Value o') = 0.
Proof.
  induction fuel as [|fuel IH]; intros w a hd q vs off d Ho Hv Hd Hdpos Hne Hc Hfuel.
  { exfalso. unfold slice_ok in Hv. destruct (mem w !! s_arr vs); [lia|done]. }
  assert (Hv' := Hv). unfold slice_ok in Hv'.
  destruct (mem w !! s_arr vs) as [lv|] eqn:Hlv; [|done].
  destruct Hv' as (Hv1 & Hv2 & Hv3).
  assert (Hd' := Hd). unfold slice_ok in Hd'.
  destruct (mem w !! s_arr d) as [ld|] eqn:Hld; [|done].
  destruct Hd' as (Hd1 & Hd2 & Hd3).
  pose proof (length_contents w (Some vs) Hv) as Hlen. cbn [len] in Hlen.
  destruct (Z.eq_dec (s_len vs) 0) as [Hz|Hnz].
  { exists w. eexists. split; [|split; [exact Ho|exact Hz]].
    erewrite drain_empty by (first [eassumption|exact Hz]).
    do 3 f_equal. symmetry. apply length_zero_iff_nil. lia. }
  assert (Hpos : 0 < s_len vs) by lia.
  assert (Hl : live (copied w d vs) a).
  { unfold copied. apply live_mem_write. eapply live_lookup; eassumption. }
  pose proof (copied_destination w vs d Hv Hd Hpos) as Hdst.
  destruct (Z.lt_ge_cases (s_len d) (s_len vs)) as [Hlt|Hge].
  - (* bytes remain *)
    rewrite Z.min_l in Hdst by lia.
    set (vs' := MkSlice (s_arr vs) (s_off vs + s_len d) (s_len vs - s_len d)
                  (s_cap vs - s_len d)).
    set (w1 := set_obj a (MkBuffer hd q (Some vs') (int_add off (s_len d)))
                 (copied w d vs)).
    assert (Ho1 : objs w1 !! a = Some (MkBuffer hd q (Some vs') (int_add off (s_len d))))
      by (apply objs_set_obj; exact Hl).
    assert (Hv1' : slice_ok w1 (Some vs')).
    { apply slice_ok_set_obj, copied_slice_ok.
      apply (slice_ok_subslice w (Some vs) (s_len d) (s_len vs)); [done|lia|simpl; lia]. }
    assert (Hd1' : slice_ok w1 (Some d))
      by now apply slice_ok_set_obj, copied_slice_ok.
    destruct (IH w1 a hd q vs' (int_add off (s_len d)) d Ho1 Hv1' Hd1' Hdpos Hne Hc)
      as (w' & o' & Hdr & Ho' & Hz'); [simpl; lia|].
    exists w', o'. split; [|split; assumption].
    rewrite (drain_S fuel).
    erewrite bind_ok by (eapply Read_partial; eassumption).
    cbv beta iota. change (set_obj a _ (copied w d vs)) with w1.
    erewrite bind_ok by (apply reslice_ok; simpl; lia).
    erewrite bind_ok by reflexivity.
    erewrite bind_ok by exact Hdr.
    unfold ret. do 3 f_equal.
    unfold w1 at 1. rewrite contents_set_obj, Hdst.
    unfold w1. rewrite contents_set_obj.
    rewrite (copied_window w vs d); [|done|now intros h [= <-]].
    simpl. rewrite <- mem_read_drop by lia.
    apply take_drop.
  - (* the window is exhausted *)
    rewrite Z.min_r in Hdst by lia.
    set (w1 := set_obj a (MkBuffer hd q (subslice hd 16 16) 16) (copied w d vs)).
    assert (Ho1 : objs w1 !! a = Some (MkBuffer hd q (subslice hd 16 16) 16))
      by (apply objs_set_obj; exact Hl).
    assert (Hz1 : len (Value (MkBuffer hd q (subslice hd 16 16) 16)) = 0)
      by (destruct hd; simpl; lia).
    destruct fuel as [|fuel]; [lia|].
    exists w1. eexists. split; [|split; [exact Ho1|exact Hz1]].
    rewrite (drain_S (S fuel)).
    erewrite bind_ok by (eapply Read_full; eassumption).
    cbv beta iota. fold w1.
    erewrite bind_ok by (apply reslice_ok; simpl; lia).
    erewrite bind_ok by reflexivity.
    erewrite bind_ok by (eapply drain_empty; [exact Ho1|exact Hz1]).
    unfold ret. do 3 f_equal.
    rewrite app_nil_r.
    replace (contents w1 (subslice (Some d) 0 (s_len vs)))
      with (take (Z.to_nat (s_len vs)) (contents w (Some vs))) by (symmetry; exact Hdst).
    apply take_ge. lia.
Qed.

(** C2: on a live buffer (backing store of at least 16 bytes), for every
    byte sequence [b] below the length limit of a slice: [Clear], then
    [Append b], then reading into a non-empty destination elsewhere until
    [EOF], with [length b + 1] calls to spare, yields exactly [b], in order,
    ended by [EOF]; and the next [Read] returns [EOF] again. *)
Theorem Append_then_drain_roundtrip
    (grow : Z -> Z -> Z) (w : World) (a : nat) (o : Buffer) (h d : slice)
    (b : list byte) :
  objs w !! a = Some o ->
  head o = Some h -> slice_ok w (Some h) -> 16 <= s_cap h ->
  slice_ok w (Some d) -> 0 < s_len d -> s_arr d <> s_arr h ->
  Z.of_nat (length b) <= max_int ->
  exists w',
    (do_ Clear (Some a);
     do_ Append grow (Some a) b;
     drain (S (length b)) (Some a) (Some d)) w
    = Ok (Some (b, EOF)) w' /\
    Read (Some a) (Some d) w' = Ok (0, Some EOF) w'.
Proof.
  intros Ho Hh Hhok Hc Hd Hdpos Hne Hmax.
  destruct o as [hd q v off]. simpl in Hh. subst hd.
  assert (Hl : live w a) by (eapply live_lookup; eassumption).
  set (v0 := MkSlice (s_arr h) (s_off h + 16) 0 (s_cap h - 16)).
  set (w1 := set_obj a (MkBuffer (Some h) q (Some v0) 16) w).
  assert (Ho1 : objs w1 !! a = Some (MkBuffer (Some h) q (Some v0) 16))
    by (apply objs_set_obj; exact Hl).
  assert (Hv0 : slice_ok w1 (Some v0)).
  { apply slice_ok_set_obj.
    replace (Some v0) with (subslice (Some h) 16 16)
      by (unfold v0; simpl; do 2 f_equal; lia).
    apply slice_ok_subslice; [done|lia|simpl; lia]. }
  destruct (Append_spec grow w1 a (Some h) q v0 16 b Ho1 Hv0)
    as (w2 & vs & Happ & Ho2 & Hlen & Hcont & Hvs & Hpres & Harr);
    [simpl; lia|].
  assert (Hd2 : slice_ok w2 (Some d)) by (apply Hpres; exact Hd).
  assert (Hne2 : s_arr d <> s_arr vs).
  { destruct Harr as [-> | ->]; [exact Hne|].
    pose proof (slice_ok_lt w d Hd). simpl. lia. }
  destruct (drain_window (S (length b)) w2 a (Some h) q vs 16 d Ho2 Hvs Hd2 Hdpos Hne2)
    as (w' & o' & Hdr & Ho' & Hz'); [simpl; lia|simpl in *; lia|].
  exists w'. split.
  - erewrite bind_ok by (eapply Clear_ok; [eassumption|simpl; lia]).
    replace (subslice (Some h) 16 16) with (Some v0)
      by (unfold v0; simpl; do 2 f_equal; lia).
    fold w1. erewrite bind_ok by exact Happ.
    rewrite Hdr. do 3 f_equal. rewrite Hcont.
    unfold contents, mem_read. simpl.
    now destruct (mem w !! s_arr h).
  - eapply Read_eof; eassumption.
Qed.

(** ** C6: FillFrom *)

Section FillFromSpec.

Context {R : Type} `{Reader R}.
Variables (w : World) (a : nat).
Variables (hd : bytes) (q : poolref) (vs : slice) (off : Z) (reader : R).
Hypothesis Ho : objs w !! a = Some (MkBuffer hd q (Some vs) off).
Hypothesis Hv : slice_ok w (Some vs).

Lemma FillFrom_run :
  0 <= ro_n (fst (reader_Read reader (s_cap vs - s_len vs))) <= s_cap vs - s_len vs ->
  s_cap vs <= max_int ->
  FillFrom (Some a) reader w
  = Ok (ro_n (fst (reader_Read reader (s_cap vs - s_len vs))),
        ro_err (fst (reader_Read reader (s_cap vs - s_len vs))),
        snd (reader_Read reader (s_cap vs - s_len vs)))
       (set_obj a
          (MkBuffer hd q
             (Some (MkSlice (s_arr vs) (s_off vs)
                      (match ro_err (fst (reader_Read reader (s_cap vs - s_len vs))) with
                       | None => s_len vs + ro_n (fst (reader_Read reader (s_cap vs - s_len vs)))
                       | Some _ => s_cap vs
                       end)
                      (s_cap vs)))
             off)
          (mem_write (s_arr vs) (s_off vs + s_len vs)
             (take (Z.to_nat (s_cap vs - s_len vs))
                (ro_stored (fst (reader_Read reader (s_cap vs - s_len vs))))) w)).
Proof.
  intros Hn Hmax.
  assert (Hv' := Hv). unfold slice_ok in Hv'.
  destruct (mem w !! s_arr vs) as [lv|] eqn:Hlv; [|done].
  destruct Hv' as (Hv1 & Hv2 & Hv3).
  unfold FillFrom.
  erewrite bind_ok by (eapply Len_ok; eassumption). fields.
  do 5 step.
  unfold call_Read at 1.
  cbn [subslice set_Value len cap s_arr s_off s_len s_cap head pool Value offset].
  replace (s_cap vs - 0 - s_len vs) with (s_cap vs - s_len vs) by lia.
  replace (s_off vs + 0 + s_len vs) with (s_off vs + s_len vs) by lia.
  destruct (reader_Read reader (s_cap vs - s_len vs)) as [[stored n err] reader'].
  cbn [fst snd ro_n ro_err ro_stored] in *.
  erewrite bind_ok by reflexivity. cbv beta iota.
  rewrite mem_write_set_obj.
  assert (Hl : live (mem_write (s_arr vs) (s_off vs + s_len vs)
                       (take (Z.to_nat (s_cap vs - s_len vs)) stored) w) a)
    by (apply live_mem_write; eapply live_lookup; eassumption).
  destruct err as [e|].
  - erewrite bind_ok by reflexivity. unfold ret, set_Value.
    cbn [head pool Value offset]. now rewrite Z.add_0_r, !Z.sub_0_r.
  - erewrite bind_ok.
    2:{ step. rewrite int_add_id by (unfold min_int; lia).
        step. apply wr_set. exact Hl. }
    unfold ret, set_Value, subslice.
    cbn [head pool Value offset s_arr s_off s_len s_cap].
    now rewrite !Z.add_0_r, !Z.sub_0_r.
Qed.

End FillFromSpec.

(** C6 as stated fails when the source reports a failure: the window does
    not grow by the number of bytes read, it is left stretched over the
    whole tail.  On the cleared buffer of [cleared_world] (length 0,
    capacity 16) a source that delivers 3 bytes with an error leaves [Len]
    at 16, not at 3, and a source at its end (0 bytes, [EOF]) leaves [Len]
    at 16, not at 0. *)
Lemma FillFrom_failure_stretches_window :
  exists w1 w2,
    Len_around_FillFrom (Some 0%nat)
      (MkFailing (take 3 hello) (SourceError "boom")) cleared_world
    = Ok (0, 3, Some (SourceError "boom"), 16) w1 /\
    Len_around_FillFrom (Some 0%nat) (@nil byte) cleared_world
    = Ok (0, 0, Some EOF, 16) w2 /\
    16 <> 0 + 3 /\ 16 <> 0 + 0.
Proof.
  do 2 eexists.
  split; [vm_compute; reflexivity|].
  split; [vm_compute; reflexivity|].
  split; lia.
Qed.

(** C6, amended: [FillFrom] hands the source the tail [Value[len:cap]], so
    the only bytes of memory that change are stores into that tail, and it
    returns the source's count and error as they are.  When the source
    reports no error, the window has grown by exactly the count [n]: it
    shows the bytes it showed before followed by the first [n] bytes of the
    tail, which are the bytes the source delivered.  When the source reports
    an error, the bytes the window showed before are still its first bytes,
    and the window is left stretched over the whole tail: its length is its
    capacity, whatever the count.  The source keeps to the contract of
    io.Reader: [0 <= n <= len(p)]. *)
Theorem FillFrom_fills_tail
    {R : Type} `{Reader R} (w : World) (a : nat) (o : Buffer) (vs : slice)
    (reader : R) :
  objs w !! a = Some o ->
  Value o = Some vs ->
  slice_ok w (Some vs) ->
  s_cap vs <= max_int ->
  let room := s_cap vs - s_len vs in
  let out := fst (reader_Read reader room) in
  0 <= ro_n out <= room ->
  exists w' o',
    FillFrom (Some a) reader w
    = Ok (ro_n out, ro_err out, snd (reader_Read reader room)) w' /\
    w' = set_obj a o'
           (mem_write (s_arr vs) (s_off vs + s_len vs)
              (take (Z.to_nat room) (ro_stored out)) w) /\
    objs w' !! a = Some o' /\
    head o' = head o /\ pool o' = pool o /\ offset o' = offset o /\
    take (Z.to_nat (s_len vs)) (contents w' (Value o')) = contents w (Value o) /\
    match ro_err out with
    | None =>
        len (Value o') = s_len vs + ro_n out /\
        contents w' (Value o')
        = contents w (Value o)
          ++ mem_read w' (s_arr vs) (s_off vs + s_len vs) (ro_n out) /\
        (ro_n out <= Z.of_nat (length (ro_stored out)) ->
         mem_read w' (s_arr vs) (s_off vs + s_len vs) (ro_n out)
         = take (Z.to_nat (ro_n out)) (ro_stored out))
    | Some _ => len (Value o') = s_cap vs
    end.
Proof.
  intros Ho HV Hv Hmax room out Hn.
  destruct o as [hd q v off]. simpl in HV. subst v.
  assert (Hv' := Hv). unfold slice_ok in Hv'.
  destruct (mem w !! s_arr vs) as [lv|] eqn:Hlv; [|done].
  destruct Hv' as (Hv1 & Hv2 & Hv3).
  set (stored := take (Z.to_nat room) (ro_stored out)).
  assert (Hst : Z.of_nat (length stored) <= room).
  { unfold stored. rewrite length_take. lia. }
  assert (Hl : live (mem_write (s_arr vs) (s_off vs + s_len vs) stored w) a)
    by (apply live_mem_write; eapply live_lookup; eassumption).
  assert (Hold : forall k, 0 <= k ->
            mem_read (mem_write (s_arr vs) (s_off vs + s_len vs) stored w)
              (s_arr vs) (s_off vs) (s_len vs + k)
            = mem_read w (s_arr vs) (s_off vs) (s_len vs)
              ++ mem_read (mem_write (s_arr vs) (s_off vs + s_len vs) stored w)
                   (s_arr vs) (s_off vs + s_len vs) k).
  { intros k Hk. rewrite mem_read_split by lia. f_equal.
    eapply mem_read_elsewhere; [eassumption|lia..]. }
  assert (Hlen : Z.of_nat (length (mem_read w (s_arr vs) (s_off vs) (s_len vs)))
                 = s_len vs)
    by (eapply length_mem_read; [eassumption|lia..]).
  do 2 eexists. split; [eapply FillFrom_run; eassumption|].
  fold room out stored.
  split; [reflexivity|]. split; [apply objs_set_obj; exact Hl|].
  split; [reflexivity|]. split; [reflexivity|]. split; [reflexivity|].
  rewrite contents_set_obj. cbn [Value contents len s_arr s_off s_len].
  destruct (ro_err out) as [e|].
  - split; [|reflexivity].
    replace (s_cap vs) with (s_len vs + room) by (unfold room; lia).
    rewrite Hold by lia. apply take_app_length'. lia.
  - split; [|split; [reflexivity|split]].
    + rewrite Hold by lia. apply take_app_length'. lia.
    + apply Hold. lia.
    + intros Hdel.
      change (mem_read (set_obj ?x ?y ?z)) with (mem_read z).
      assert (Hroom : room = s_cap vs - s_len vs) by reflexivity.
      erewrite mem_read_written; [|eassumption|try lia..].
      * unfold stored. rewrite take_take. f_equal. lia.
      * unfold stored. rewrite length_take. lia.
Qed.

(** C6 on [cleared_world] with a source holding [hello]: the window grows
    from 0 to 5 bytes and shows [hello]. *)
Lemma FillFrom_fills_tail_witness :
  exists w' o',
    FillFrom (Some 0%nat) hello cleared_world
    = Ok (5, None, []) w' /\
    w' = set_obj 0 o' (mem_write 0 16 hello cleared_world) /\
    objs w' !! 0%nat = Some o' /\
    head o' = head cleared_buffer /\ pool o' = pool cleared_buffer /\
    offset o' = offset cleared_buffer /\
    take 0 (contents w' (Value o')) = [] /\
    len (Value o') = 0 + 5 /\
    contents w' (Value o') = [] ++ mem_read w' 0 16 5 /\
    (5 <= 5 -> mem_read w' 0 16 5 = hello).
Proof.
  assert (H1 : slice_ok cleared_world (Some (MkSlice 0 16 0 16))) by (simpl; lia).
  assert (H2 : 16 <= max_int) by (unfold max_int; lia).
  assert (H3 : 0 <= 5 <= 16) by lia.
  exact (FillFrom_fills_tail cleared_world 0%nat cleared_buffer
           (MkSlice 0 16 0 16) hello eq_refl eq_refl H1 H2 H3).
Defined.

(** ** C10: the aliasing invariant *)

Lemma aliased_inv hd q v off :
  aliased (MkBuffer hd q v off) ->
  exists h L,
    hd = Some h /\
    v = Some (MkSlice (s_arr h) (s_off h + off) L (s_cap h - off)) /\
    0 <= off /\ 0 <= L /\ off + L <= s_cap h /\ s_cap h <= max_int.
Proof.
  intros (H1 & H2 & H3 & H4 & H5 & H6). simpl in *.
  destruct hd as [h|]; [|done]. destruct v as [vs|]; [|done].
  simpl in *. exists h, (s_len vs). split; [done|].
  split; [|lia]. rewrite H6 at 1. do 2 f_equal. lia.
Qed.

Lemma aliased_intro h q off L :
  0 <= off -> 0 <= L -> off + L <= s_cap h -> s_cap h <= max_int ->
  aliased (MkBuffer (Some h) q
             (Some (MkSlice (s_arr h) (s_off h + off) L (s_cap h - off))) off).
Proof.
  intros H1 H2 H3 H4. unfold aliased. simpl.
  repeat split; try done. do 2 f_equal. lia.
Qed.

Lemma copy_run (dst : bytes) (src : list byte) w :
  exists n w1, copy dst src w = Ok n w1 /\ objs w1 = objs w.
Proof.
  destruct dst as [d|]; simpl; do 2 eexists; (split; [reflexivity|]).
  - apply objs_mem_write.
  - reflexivity.
Qed.

Lemma run_op_ok {A} (m : M A) w w' :
  (do_ m; ret tt) w = Ok tt w' -> exists x, m w = Ok x w'.
Proof.
  intros H. apply bind_inv_ok in H. destruct H as (x & w1 & Hm & Hr).
  inversion Hr. subst. eauto.
Qed.

Section Aliasing.

Variable grow : Z -> Z -> Z.
Variables (w : World) (a : nat) (h : slice) (q : poolref) (off L : Z).
Hypothesis Ho :
  objs w !! a
  = Some (MkBuffer (Some h) q
            (Some (MkSlice (s_arr h) (s_off h + off) L (s_cap h - off))) off).
Hypothesis Hoff : 0 <= off.
Hypothesis HL : 0 <= L.
Hypothesis Hfit : off + L <= s_cap h.
Hypothesis Hmax : s_cap h <= max_int.

Lemma SliceBack_aliased k x w' :
  SliceBack (Some a) k w = Ok x w' ->
  exists o', objs w' !! a = Some o' /\ aliased o' /\ head o' = Some h.
Proof.
  intros H.
  assert (Hhi : int_add off L = off + L)
    by (apply int_add_id; unfold min_int; lia).
  destruct (Z.lt_ge_cases (int_sub off k) 0) as [Hn|Hn].
  { erewrite SliceBack_headroom in H by (first [eassumption|exact Hn]). discriminate. }
  destruct (decide (int_sub off k <= int_add off L <= s_cap h)) as [Hb|Hb].
  - erewrite SliceBack_ok in H; [|eassumption|simpl; lia..].
    inversion H. subst. eexists. split; [|split].
    + apply objs_set_obj. eapply live_lookup; eassumption.
    + cbn [subslice len]. rewrite Hhi.
      apply aliased_intro; lia.
    + reflexivity.
  - erewrite SliceBack_bounds in H by (first [eassumption|exact Hn|exact Hb]).
    discriminate.
Qed.

Lemma Prepend_aliased data x w' :
  Prepend (Some a) data w = Ok x w' ->
  exists o', objs w' !! a = Some o' /\ aliased o' /\ head o' = Some h.
Proof.
  intros H. unfold Prepend in H.
  apply bind_inv_ok in H. destruct H as (y & w1 & Hsb & H).
  destruct (SliceBack_aliased _ _ _ Hsb) as (o' & Ho' & Hal & Hh).
  erewrite bind_ok in H by (eapply rd_ok; eassumption).
  destruct (copy_run (Value o') data w1) as (n & w2 & Hcp & Hobjs).
  erewrite bind_ok in H by exact Hcp.
  inversion H. subst. exists o'. now rewrite Hobjs.
Qed.

Lemma Slice_aliased from to x w' :
  Slice (Some a) from to w = Ok x w' ->
  exists o', objs w' !! a = Some o' /\ aliased o' /\ head o' = Some h.
Proof.
  intros H.
  destruct (decide (0 <= from <= to /\ to <= s_cap h - off)) as [Hb|Hb].
  - erewrite Slice_ok in H; [|eassumption|simpl; lia..].
    inversion H. subst. eexists. split; [|split].
    + apply objs_set_obj. eapply live_lookup; eassumption.
    + cbn [subslice s_arr s_off s_len s_cap].
      rewrite int_add_id by (unfold min_int; lia).
      replace (s_off h + off + from) with (s_off h + (off + from)) by lia.
      replace (s_cap h - off - from) with (s_cap h - (off + from)) by lia.
      apply aliased_intro; lia.
    + reflexivity.
  - erewrite Slice_bounds in H by (first [eassumption|exact Hb]). discriminate.
Qed.

Lemma SliceFrom_aliased from x w' :
  SliceFrom (Some a) from w = Ok x w' ->
  exists o', objs w' !! a = Some o' /\ aliased o' /\ head o' = Some h.
Proof.
  intros H.
  destruct (decide (0 <= from <= L)) as [Hb|Hb].
  - erewrite SliceFrom_ok in H; [|eassumption|simpl; lia..].
    inversion H. subst. eexists. split; [|split].
    + apply objs_set_obj. eapply live_lookup; eassumption.
    + cbn [subslice len s_arr s_off s_len s_cap].
      rewrite int_add_id by (unfold min_int; lia).
      replace (s_off h + off + from) with (s_off h + (off + from)) by lia.
      replace (s_cap h - off - from) with (s_cap h - (off + from)) by lia.
      apply aliased_intro; lia.
    + reflexivity.
  - erewrite SliceFrom_bounds in H; [discriminate|eassumption|simpl; lia].
Qed.

Lemma Clear_aliased x w' :
  Clear (Some a) w = Ok x w' ->
  exists o', objs w' !! a = Some o' /\ aliased o' /\ head o' = Some h.
Proof.
  intros H.
  destruct (Z.le_gt_cases 16 (s_cap h)) as [Hc|Hc].
  - erewrite Clear_ok in H; [|eassumption|exact Hc].
    inversion H. subst. eexists. split; [|split].
    + apply objs_set_obj. eapply live_lookup; eassumption.
    + cbn [subslice]. replace (16 - 16) with 0 by lia.
      apply aliased_intro; lia.
    + reflexivity.
  - erewrite Clear_bounds in H; [discriminate|eassumption|simpl; lia].
Qed.

Lemma Append_aliased data x w' :
  L + Z.of_nat (length data) <= s_cap h - off ->
  Append grow (Some a) data w = Ok x w' ->
  exists o', objs w' !! a = Some o' /\ aliased o' /\ head o' = Some h.
Proof.
  intros Hcap H.
  erewrite Append_in_place in H; [|eassumption|simpl; lia].
  inversion H. subst. eexists. split; [|split].
  - apply objs_set_obj, live_mem_write. eapply live_lookup; eassumption.
  - cbn [s_arr s_off s_len s_cap]. apply aliased_intro; lia.
  - reflexivity.
Qed.

End Aliasing.

Lemma Read_aliased w a h q off L dst x w' :
  objs w !! a
  = Some (MkBuffer (Some h) q
            (Some (MkSlice (s_arr h) (s_off h + off) L (s_cap h - off))) off) ->
  0 <= off -> 0 <= L -> off + L <= s_cap h -> s_cap h <= max_int ->
  Read (Some a) dst w = Ok x w' ->
  exists o', objs w' !! a = Some o' /\ aliased o' /\ head o' = Some h.
Proof.
  intros Ho Hoff HL Hfit Hmax H. unfold Read in H.
  erewrite bind_ok in H by (eapply Len_ok; eassumption). cbn [len s_len] in H.
  destruct (L =? 0) eqn:EL.
  { inversion H. subst. eexists. split; [eassumption|].
    split; [now apply aliased_intro|reflexivity]. }
  erewrite bind_ok in H by (eapply rd_ok; eassumption). cbn [Value] in H.
  erewrite bind_ok in H by reflexivity.
  match type of H with context [copy ?d ?s] =>
    destruct (copy_run d s w) as (n & w1 & Hcp & Hobjs)
  end.
  erewrite bind_ok in H by exact Hcp.
  assert (Ho1 : objs w1 !! a
                = Some (MkBuffer (Some h) q
                          (Some (MkSlice (s_arr h) (s_off h + off) L (s_cap h - off)))
                          off)) by now rewrite Hobjs.
  erewrite bind_ok in H by (eapply Len_ok; eassumption). cbn [len s_len] in H.
  destruct (n =? L) eqn:En.
  - apply bind_inv_ok in H. destruct H as (y & w2 & Hcl & Hr).
    inversion Hr. subst. eapply Clear_aliased; eassumption.
  - erewrite bind_ok in H by (eapply rd_ok; eassumption). cbn [Value len s_len] in H.
    destruct (decide (0 <= n <= L)) as [Hb|Hb].
    + erewrite bind_ok in H by (apply reslice_ok; simpl; lia).
      erewrite bind_ok in H by (eapply wr_ok; eassumption).
      assert (Hl : live w1 a) by (eapply live_lookup; eassumption).
      erewrite bind_ok in H by (apply rd_set; exact Hl).
      erewrite bind_ok in H by (apply wr_set; exact Hl).
      inversion H. subst. eexists. split; [apply objs_set_obj; exact Hl|].
      unfold set_offset, set_Value, subslice.
      cbn [head pool Value offset s_arr s_off s_len s_cap].
      rewrite int_add_id by (unfold min_int; lia).
      replace (s_off h + off + n) with (s_off h + (off + n)) by lia.
      replace (s_cap h - off - n) with (s_cap h - (off + n)) by lia.
      split; [apply aliased_intro; lia|reflexivity].
    + erewrite bind_panic in H; [discriminate|].
      apply reslice_bounds. simpl. lia.
Qed.

Lemma run_op_preserves_aliased grow w a o c w' :
  objs w !! a = Some o -> aliased o -> within_capacity o c ->
  run_op grow (Some a) c w = Ok tt w' ->
  exists o', objs w' !! a = Some o' /\ aliased o' /\ head o' = head o.
Proof.
  intros Ho Hal Hcap H. destruct o as [hd q v off].
  destruct (aliased_inv _ _ _ _ Hal) as (h & L & -> & -> & Hoff & HL & Hfit & Hmax).
  cbn [head]. destruct c as [data|data|from to|from|k| |dst];
    apply run_op_ok in H; destruct H as [x H].
  - simpl in Hcap. eapply Append_aliased; eassumption.
  - eapply Prepend_aliased; eassumption.
  - eapply Slice_aliased; eassumption.
  - eapply SliceFrom_aliased; eassumption.
  - eapply SliceBack_aliased; eassumption.
  - eapply Clear_aliased; eassumption.
  - eapply Read_aliased; eassumption.
Qed.

Lemma CreateBuffer_aliased c q w p w' :
  cap c <= max_int ->
  CreateBuffer c q w = Ok p w' ->
  exists a o, p = Some a /\ objs w' !! a = Some o /\ aliased o /\ head o = c.
Proof.
  intros Hmax H. apply CreateBuffer_inv in H. destruct H as (Hc & -> & ->).
  destruct c as [h|]; [|simpl in Hc; lia]. simpl in *.
  do 2 eexists. split; [reflexivity|]. split; [now apply list_lookup_middle|].
  split; [|reflexivity].
  apply aliased_intro; lia.
Qed.

Lemma Clear_establishes_aliased w a o p w' :
  objs w !! a = Some o -> cap (head o) <= max_int ->
  Clear (Some a) w = Ok p w' ->
  exists o', objs w' !! a = Some o' /\ aliased o' /\ head o' = head o.
Proof.
  intros Ho Hmax H. destruct o as [hd q v off]. simpl in *.
  destruct (Z.le_gt_cases 16 (cap hd)) as [Hc|Hc].
  - erewrite Clear_ok in H; [|eassumption|exact Hc].
    inversion H. subst. eexists. split; [|split].
    + apply objs_set_obj. eapply live_lookup; eassumption.
    + destruct hd as [h|]; [|simpl in Hc; lia]. simpl in *.
      replace (16 - 16) with 0 by lia. apply aliased_intro; lia.
    + reflexivity.
  - erewrite Clear_bounds in H; [discriminate|eassumption|exact Hc].
Qed.

Lemma Append_growth_breaks_aliasing grow w a o data :
  objs w !! a = Some o -> aliased o -> slice_ok w (head o) ->
  cap (Value o) < len (Value o) + Z.of_nat (length data) <= max_int ->
  exists w' o' h v',
    Append grow (Some a) data w = Ok (Some a) w' /\
    objs w' !! a = Some o' /\
    head o' = head o /\ offset o' = offset o /\
    head o' = Some h /\ Value o' = Some v' /\ s_arr v' <> s_arr h /\
    ~ aliased o' /\
    (forall k, exists f w'', SliceBack (Some a) k w' = Panic f w'') /\
    (forall data', exists f w'', Prepend (Some a) data' w' = Panic f w'').
Proof.
  intros Ho Hal Hok Hbig. destruct o as [hd q v off].
  destruct (aliased_inv _ _ _ _ Hal) as (h & L & -> & -> & Hoff & HL & Hfit & Hmax).
  cbn [head Value offset len cap s_len s_cap] in *.
  pose proof (slice_ok_lt w h Hok) as Hlt.
  assert (Hl : live w a) by (eapply live_lookup; eassumption).
  set (c := newcap grow (s_cap h - off) (L + Z.of_nat (length data))).
  set (v' := MkSlice (length (mem w)) 0 (L + Z.of_nat (length data)) c).
  set (o' := MkBuffer (Some h) q (Some v') off).
  assert (Hsb : forall k w1, objs w1 !! a = Some o' ->
            exists f w'', SliceBack (Some a) k w1 = Panic f w'').
  { intros k w1 Ho1.
    destruct (Z.lt_ge_cases (int_sub off k) 0) as [Hn|Hn].
    - do 2 eexists. eapply SliceBack_headroom; [exact Ho1|exact Hn].
    - do 2 eexists. eapply SliceBack_bounds; [exact Ho1|exact Hn|].
      cbn [len cap s_len v']. unfold int_add.
      destruct (Z.le_gt_cases (off + (L + Z.of_nat (length data))) max_int) as [Hs|Hs].
      + rewrite wrap_id by (unfold min_int; lia). lia.
      + pose proof (wrap_overflow (off + (L + Z.of_nat (length data)))).
        unfold max_int in *. lia. }
  eexists. exists o', h, v'.
  split; [eapply Append_regrows; [eassumption|simpl; lia]|].
  fold c v' o'.
  assert (Ho1 : forall m, objs (set_obj a o' (set_mem m w)) !! a = Some o')
    by (intros m; apply objs_set_obj; exact Hl).
  split; [apply Ho1|]. split; [reflexivity|]. split; [reflexivity|].
  split; [reflexivity|]. split; [reflexivity|].
  split; [simpl; lia|]. split; [|split].
  - intros Hal'. apply aliased_inv in Hal'.
    destruct Hal' as (h' & L' & [= <-] & [= Harr _ _ _] & _). lia.
  - intros k. apply Hsb, Ho1.
  - intros data'.
    edestruct (Hsb (Z.of_nat (length data'))) as (f & w'' & Hp); [apply Ho1|].
    exists f, w''. unfold Prepend. erewrite bind_panic; [reflexivity|exact Hp].
Qed.

Lemma SliceBack_after_growth_shows_stale_store grow :
  exists w',
    (do b <- NewLocalBuffer 32;
     do_ Clear b;
     do_ Append grow b (replicate 20 Byte.x2a);
     do_ Slice b 0 3;
     do v1 <- Bytes b;
     do c1 <- get_contents v1;
     do_ SliceBack b 2;
     do v2 <- Bytes b;
     do c2 <- get_contents v2;
     ret (c1, c2)) empty_world
    = Ok (replicate 3 Byte.x2a, replicate 5 Byte.x00) w'.
Proof.
  set (hd := Some (MkSlice 0 0 32 32)).
  set (w1 := MkWorld [replicate 32 Byte.x00]
               [MkBuffer hd None (Some (MkSlice 0 16 0 16)) 16] []).
  erewrite bind_ok by reflexivity.
  erewrite (bind_ok _ _ _ (Some 0%nat) w1) by reflexivity.
  set (c := newcap grow 16 20).
  assert (Hc : 20 <= c) by apply Z.le_max_l.
  set (m2 := [replicate 32 Byte.x00;
              replicate 20 Byte.x2a ++ replicate (Z.to_nat (c - 20)) Byte.x00]).
  set (w2 := set_obj 0 (MkBuffer hd None (Some (MkSlice 1 0 20 c)) 16) (set_mem m2 w1)).
  erewrite (bind_ok _ _ _ (Some 0%nat) w2).
  2:{ erewrite (Append_regrows grow w1 0%nat hd None (MkSlice 0 16 0 16) 16);
        [reflexivity|reflexivity|unfold max_int; simpl; lia]. }
  erewrite bind_ok.
  2:{ eapply (Slice_ok w2 0%nat hd None (Some (MkSlice 1 0 20 c)) 16);
        [reflexivity|lia|simpl; lia]. }
  erewrite bind_ok by (eapply Bytes_ok; reflexivity).
  erewrite bind_ok by reflexivity.
  erewrite bind_ok.
  2:{ eapply SliceBack_ok; [reflexivity|simpl; vm_compute; split; discriminate
                           |simpl; vm_compute; discriminate]. }
  erewrite bind_ok by (eapply Bytes_ok; reflexivity).
  erewrite bind_ok by reflexivity.
  eexists. unfold ret. f_equal.
Qed.

(** C10: a buffer made by [CreateBuffer], or just cleared, is aliased: its
    window is the sub-range [head[offset : offset+Len]] of its backing store.
    Every operation among Append, Prepend, Slice, SliceFrom, SliceBack, Clear
    and Read that returns keeps it so, over the same backing store, provided
    an append fits the capacity the window has left.  An append beyond that
    capacity returns a window in a fresh array: the buffer is no longer
    aliased, and any [SliceBack] or [Prepend] that follows panics; once the
    window has been cut shorter, [SliceBack] returns again, with a window
    back in the original store, which never received the appended bytes. *)
Theorem aliasing_holds_until_growth :
  (forall c q w p w',
     cap c <= max_int -> CreateBuffer c q w = Ok p w' ->
     exists a o, p = Some a /\ objs w' !! a = Some o /\ aliased o /\ head o = c) /\
  (forall w a o p w',
     objs w !! a = Some o -> cap (head o) <= max_int ->
     Clear (Some a) w = Ok p w' ->
     exists o', objs w' !! a = Some o' /\ aliased o' /\ head o' = head o) /\
  (forall grow w a o c w',
     objs w !! a = Some o -> aliased o -> within_capacity o c ->
     run_op grow (Some a) c w = Ok tt w' ->
     exists o', objs w' !! a = Some o' /\ aliased o' /\ head o' = head o) /\
  (forall grow w a o data,
     objs w !! a = Some o -> aliased o -> slice_ok w (head o) ->
     cap (Value o) < len (Value o) + Z.of_nat (length data) <= max_int ->
     exists w' o' h v',
       Append grow (Some a) data w = Ok (Some a) w' /\
       objs w' !! a = Some o' /\
       head o' = head o /\ offset o' = offset o /\
       head o' = Some h /\ Value o' = Some v' /\ s_arr v' <> s_arr h /\
       ~ aliased o' /\
       (forall k, exists f w'', SliceBack (Some a) k w' = Panic f w'') /\
       (forall data', exists f w'', Prepend (Some a) data' w' = Panic f w'')) /\
  (forall grow, exists w',
     (do b <- NewLocalBuffer 32;
      do_ Clear b;
      do_ Append grow b (replicate 20 Byte.x2a);
      do_ Slice b 0 3;
      do v1 <- Bytes b;
      do c1 <- get_contents v1;
      do_ SliceBack b 2;
      do v2 <- Bytes b;
      do c2 <- get_contents v2;
      ret (c1, c2)) empty_world
     = Ok (replicate 3 Byte.x2a, replicate 5 Byte.x00) w').
Proof.
  split; [exact CreateBuffer_aliased|].
  split; [exact Clear_establishes_aliased|].
  split; [exact run_op_preserves_aliased|].
  split; [exact Append_growth_breaks_aliasing|].
  exact SliceBack_after_growth_shows_stale_store.
Qed.

(** ** The headroom budget after Clear *)

Lemma total_nonneg chunks : 0 <= total chunks.
Proof. induction chunks as [|c cs IH]; simpl; lia. Qed.

Lemma total_app xs ys : total (xs ++ ys) = total xs + total ys.
Proof. induction xs as [|x xs IH]; simpl; lia. Qed.

Lemma Prepend_within_headroom w a h q off L data :
  objs w !! a
  = Some (MkBuffer (Some h) q
            (Some (MkSlice (s_arr h) (s_off h + off) L (s_cap h - off))) off) ->
  0 <= L -> off + L <= s_cap h -> s_cap h <= max_int ->
  Z.of_nat (length data) <= off ->
  Prepend (Some a) data w
  = Ok (Some a)
       (set_obj a
          (MkBuffer (Some h) q
             (Some (MkSlice (s_arr h) (s_off h + (off - Z.of_nat (length data)))
                      (L + Z.of_nat (length data))
                      (s_cap h - (off - Z.of_nat (length data)))))
             (off - Z.of_nat (length data)))
          (mem_write (s_arr h) (s_off h + (off - Z.of_nat (length data))) data w)).
Proof.
  intros Ho HL Hfit Hmax Hk. unfold Prepend.
  assert (Hl : live w a) by (eapply live_lookup; eassumption).
  assert (Hlo : int_sub off (Z.of_nat (length data)) = off - Z.of_nat (length data))
    by (apply int_sub_id; unfold min_int; lia).
  assert (Hhi : int_add off L = off + L)
    by (apply int_add_id; unfold min_int; lia).
  erewrite bind_ok; [|eapply SliceBack_ok; [eassumption|cbn [len cap s_len s_cap]; lia..]].
  cbn [len s_len subslice]. rewrite Hlo, Hhi.
  step. unfold copy. cbn [len s_len s_arr s_off].
  rewrite Z.min_r by lia. rewrite Nat2Z.id, firstn_all.
  erewrite bind_ok by reflexivity. unfold ret.
  rewrite mem_write_set_obj. do 5 f_equal. lia.
Qed.

Lemma Prepend_beyond_headroom w a hd q v off data :
  objs w !! a = Some (MkBuffer hd q v off) ->
  0 <= off < Z.of_nat (length data) -> Z.of_nat (length data) <= max_int ->
  Prepend (Some a) data w = Panic HeadroomExhausted w.
Proof.
  intros Ho Hk Hmax. unfold Prepend.
  erewrite bind_panic; [reflexivity|].
  eapply SliceBack_headroom; [eassumption|].
  rewrite int_sub_id by (unfold min_int, max_int in *; lia). lia.
Qed.

Lemma PrependAll_within_headroom chunks :
  forall w a h q off L,
    objs w !! a
    = Some (MkBuffer (Some h) q
              (Some (MkSlice (s_arr h) (s_off h + off) L (s_cap h - off))) off) ->
    0 <= L -> off + L <= s_cap h -> s_cap h <= max_int ->
    total chunks <= off ->
    exists w',
      PrependAll (Some a) chunks w = Ok (Some a) w' /\
      objs w' !! a
      = Some (MkBuffer (Some h) q
                (Some (MkSlice (s_arr h) (s_off h + (off - total chunks))
                         (L + total chunks) (s_cap h - (off - total chunks))))
                (off - total chunks)).
Proof.
  induction chunks as [|c cs IH]; intros w a h q off L Ho HL Hfit Hmax Htot.
  - exists w. split; [reflexivity|]. simpl.
    now rewrite Z.sub_0_r, Z.add_0_r.
  - simpl in Htot. pose proof (total_nonneg cs) as Hcs.
    assert (Hl : live w a) by (eapply live_lookup; eassumption).
    set (o1 := MkBuffer (Some h) q
                 (Some (MkSlice (s_arr h) (s_off h + (off - Z.of_nat (length c)))
                          (L + Z.of_nat (length c))
                          (s_cap h - (off - Z.of_nat (length c)))))
                 (off - Z.of_nat (length c))).
    destruct (IH (set_obj a o1 (mem_write (s_arr h)
                                  (s_off h + (off - Z.of_nat (length c))) c w))
                 a h q (off - Z.of_nat (length c)) (L + Z.of_nat (length c)))
      as (w' & Hrun & Ho'); [apply objs_set_obj, live_mem_write; exact Hl|lia..|].
    exists w'. split.
    + cbn [PrependAll].
      erewrite bind_ok by (eapply Prepend_within_headroom; [eassumption|lia..]).
      exact Hrun.
    + rewrite Ho'. cbn [total]. f_equal. f_equal; [|lia]. f_equal. f_equal; lia.
Qed.

Lemma PrependAll_crossing pre :
  forall w a h q off L chunk rest,
    objs w !! a
    = Some (MkBuffer (Some h) q
              (Some (MkSlice (s_arr h) (s_off h + off) L (s_cap h - off))) off) ->
    0 <= L -> off + L <= s_cap h -> s_cap h <= max_int ->
    total pre <= off < total pre + Z.of_nat (length chunk) ->
    Z.of_nat (length chunk) <= max_int ->
    exists w1,
      PrependAll (Some a) pre w = Ok (Some a) w1 /\
      PrependAll (Some a) (pre ++ chunk :: rest) w = Panic HeadroomExhausted w1.
Proof.
  induction pre as [|c cs IH]; intros w a h q off L chunk rest Ho HL Hfit Hmax Htot Hlen.
  - exists w. split; [reflexivity|]. simpl in *.
    erewrite bind_panic; [reflexivity|].
    eapply Prepend_beyond_headroom; [eassumption|lia|lia].
  - simpl in Htot. pose proof (total_nonneg cs) as Hcs.
    assert (Hl : live w a) by (eapply live_lookup; eassumption).
    set (o1 := MkBuffer (Some h) q
                 (Some (MkSlice (s_arr h) (s_off h + (off - Z.of_nat (length c)))
                          (L + Z.of_nat (length c))
                          (s_cap h - (off - Z.of_nat (length c)))))
                 (off - Z.of_nat (length c))).
    destruct (IH (set_obj a o1 (mem_write (s_arr h)
                                  (s_off h + (off - Z.of_nat (length c))) c w))
                 a h q (off - Z.of_nat (length c)) (L + Z.of_nat (length c))
                 chunk rest)
      as (w1 & Hrun & Hpanic);
      [apply objs_set_obj, live_mem_write; exact Hl|lia..|].
    exists w1. split.
    + cbn [PrependAll].
      erewrite bind_ok by (eapply Prepend_within_headroom; [eassumption|lia..]).
      exact Hrun.
    + cbn [PrependAll app].
      erewrite bind_ok by (eapply Prepend_within_headroom; [eassumption|lia..]).
      exact Hpanic.
Qed.

(** X4 (the half of C1 that the code keeps): once a live buffer has been
    cleared, chunks totalling at most 16 bytes are all prepended, and the
    window then holds that many bytes from offset [16 - total] on; when a
    chunk takes the total beyond 16, the chunks before it are prepended and
    that chunk panics with the headroom panic, in the very store the chunks
    before it left behind. *)
Lemma Prepend_budget_after_Clear w a o p w0 :
  objs w !! a = Some o -> cap (head o) <= max_int ->
  Clear (Some a) w = Ok p w0 ->
  (forall chunks, total chunks <= 16 ->
     exists w',
       PrependAll (Some a) chunks w0 = Ok (Some a) w' /\
       Len (Some a) w' = Ok (total chunks) w' /\
       rd offset (Some a) w' = Ok (16 - total chunks) w') /\
  (forall pre chunk rest,
     total pre <= 16 < total pre + Z.of_nat (length chunk) ->
     Z.of_nat (length chunk) <= max_int ->
     exists w1,
       PrependAll (Some a) pre w0 = Ok (Some a) w1 /\
       PrependAll (Some a) (pre ++ chunk :: rest) w0 = Panic HeadroomExhausted w1).
Proof.
  intros Ho Hmax Hclear. destruct o as [hd q v off]. simpl in Hmax.
  destruct (Z.le_gt_cases 16 (cap hd)) as [Hc|Hc];
    [|erewrite Clear_bounds in Hclear; [discriminate|eassumption|exact Hc]].
  erewrite Clear_ok in Hclear; [|eassumption|exact Hc].
  inversion Hclear. subst. clear Hclear.
  destruct hd as [h|]; [|simpl in Hc; lia]. simpl in *.
  assert (Hl : live w a) by (eapply live_lookup; eassumption).
  match goal with |- context [PrependAll _ _ ?w0] =>
    assert (Ho0 : objs w0 !! a
                  = Some (MkBuffer (Some h) q
                            (Some (MkSlice (s_arr h) (s_off h + 16) 0 (s_cap h - 16))) 16))
  end.
  { rewrite objs_set_obj by exact Hl. reflexivity. }
  split.
  - intros chunks Htot.
    destruct (PrependAll_within_headroom chunks _ a h q 16 0 Ho0)
      as (w' & Hrun & Ho'); [lia..|].
    exists w'. split; [exact Hrun|]. split.
    + exact (Len_ok _ _ _ _ _ _ Ho').
    + exact (rd_ok offset _ _ _ Ho').
  - intros pre chunk rest Htot Hlen.
    eapply PrependAll_crossing; [exact Ho0|lia..].
Qed.

(** ** The theorems at concrete stores *)

Lemma hello_world_reached :
  (do_ Clear (Some 0%nat); do_ Append doubling (Some 0%nat) hello; ret tt)
    demo_world_dst
  = Ok tt hello_world.
Proof. reflexivity. Qed.

(** C2 with 20 bytes on a window of capacity 16, so that the append moves
    the window to a fresh array, drained through a 3-byte destination. *)
Lemma Append_then_drain_roundtrip_witness :
  exists w',
    (do_ Clear (Some 0%nat);
     do_ Append doubling (Some 0%nat) (replicate 20 Byte.x2a);
     drain 21 (Some 0%nat) (Some demo_dst)) demo_world_dst
    = Ok (Some (replicate 20 Byte.x2a, EOF)) w' /\
    Read (Some 0%nat) (Some demo_dst) w' = Ok (0, Some EOF) w'.
Proof.
  assert (H1 : slice_ok demo_world_dst (Some (MkSlice 0 0 32 32))) by (simpl; lia).
  assert (H2 : 16 <= 32) by lia.
  assert (H3 : slice_ok demo_world_dst (Some demo_dst)) by (simpl; lia).
  assert (H4 : 0 < 3) by lia.
  assert (H5 : 1%nat <> 0%nat) by discriminate.
  assert (H6 : Z.of_nat (length (replicate 20 Byte.x2a)) <= max_int)
    by (unfold max_int; simpl; lia).
  exact (Append_then_drain_roundtrip doubling demo_world_dst 0%nat demo_buffer
           (MkSlice 0 0 32 32) demo_dst (replicate 20 Byte.x2a)
           eq_refl eq_refl H1 H2 H3 H4 H5 H6).
Defined.

(** The amended C5 on [hello_world]: 3 of the 5 bytes are drained. *)
Lemma Read_drains_front_witness :
  exists w' o',
    Read (Some 0%nat) (Some demo_dst) hello_world = Ok (3, None) w' /\
    objs w' !! 0%nat = Some o' /\
    contents w' (subslice (Some demo_dst) 0 3) = [Byte.x68; Byte.x65; Byte.x6c] /\
    len (Value o') = 5 - 3 /\
    contents w' (Value o') = [Byte.x6c; Byte.x6f] /\
    head o' = head hello_buffer /\
    offset o' = int_add 16 3 /\
    Value o' = subslice (Value hello_buffer) 3 5.
Proof.
  assert (H1 : slice_ok hello_world (Some (MkSlice 0 16 5 16))) by (simpl; lia).
  assert (H2 : slice_ok hello_world (Some demo_dst)) by (simpl; lia).
  assert (H3 : 1%nat <> 0%nat) by discriminate.
  assert (H4 : 16 <= 32) by lia.
  exact (proj1 Read_drains_front hello_world 0%nat hello_buffer
           (MkSlice 0 16 5 16) demo_dst eq_refl eq_refl H1 H2 H3 H4).
Defined.

Lemma aliased_cleared_buffer : aliased cleared_buffer.
Proof.
  unfold aliased, max_int. simpl. repeat split; try lia. discriminate.
Qed.

(** C10 at one step: prepending [hello] to the cleared buffer keeps it
    aliased. *)
Lemma aliasing_holds_until_growth_witness :
  exists w',
    run_op doubling (Some 0%nat) (OpPrepend hello) cleared_world = Ok tt w' /\
    exists o',
      objs w' !! 0%nat = Some o' /\ aliased o' /\ head o' = head cleared_buffer.
Proof.
  eexists. split; [reflexivity|].
  exact (proj1 (proj2 (proj2 aliasing_holds_until_growth))
           doubling cleared_world 0%nat cleared_buffer (OpPrepend hello) _
           eq_refl aliased_cleared_buffer I eq_refl).
Defined.

(** * Further properties of buffer.go *)

(** ** When the window operations return *)

Section Inversion.

Variables (w : World) (a : nat).
Variables (hd : bytes) (q : poolref) (v : bytes) (off : Z).
Hypothesis Ho : objs w !! a = Some (MkBuffer hd q v off).

Lemma SliceBack_inv k x w' :
  SliceBack (Some a) k w = Ok x w' ->
  0 <= int_sub off k <= int_add off (len v) /\
  int_add off (len v) <= cap hd /\
  x = Some a /\
  w' = set_obj a (MkBuffer hd q (subslice hd (int_sub off k) (int_add off (len v)))
                    (int_sub off k)) w.
Proof.
  intros H.
  destruct (Z.lt_ge_cases (int_sub off k) 0) as [Hn|Hn].
  { erewrite SliceBack_headroom in H by (first [eassumption|exact Hn]). discriminate. }
  destruct (decide (int_sub off k <= int_add off (len v) <= cap hd)) as [Hb|Hb].
  - erewrite SliceBack_ok in H; [|eassumption|lia..].
    inversion H. subst. repeat split; lia.
  - erewrite SliceBack_bounds in H by (first [eassumption|exact Hn|exact Hb]).
    discriminate.
Qed.

Lemma Slice_inv from to x w' :
  Slice (Some a) from to w = Ok x w' ->
  0 <= from <= to /\ to <= cap v /\ x = Some a /\
  w' = set_obj a (MkBuffer hd q (subslice v from to) (int_add off from)) w.
Proof.
  intros H.
  destruct (decide (0 <= from <= to /\ to <= cap v)) as [Hb|Hb].
  - erewrite Slice_ok in H; [|eassumption|lia..].
    inversion H. subst. repeat split; lia.
  - erewrite Slice_bounds in H by (first [eassumption|exact Hb]). discriminate.
Qed.

Lemma SliceFrom_inv from x w' :
  SliceFrom (Some a) from w = Ok x w' ->
  0 <= from <= len v /\ len v <= cap v /\ x = Some a /\
  w' = set_obj a (MkBuffer hd q (subslice v from (len v)) (int_add off from)) w.
Proof.
  intros H.
  destruct (decide (0 <= from <= len v /\ len v <= cap v)) as [Hb|Hb].
  - erewrite SliceFrom_ok in H; [|eassumption|lia..].
    inversion H. subst. repeat split; lia.
  - erewrite SliceFrom_bounds in H by (first [eassumption|exact Hb]). discriminate.
Qed.

Lemma Clear_inv x w' :
  Clear (Some a) w = Ok x w' ->
  16 <= cap hd /\ x = Some a /\
  w' = set_obj a (MkBuffer hd q (subslice hd 16 16) 16) w.
Proof.
  intros H.
  destruct (Z.le_gt_cases 16 (cap hd)) as [Hc|Hc].
  - erewrite Clear_ok in H; [|eassumption|exact Hc].
    inversion H. subst. repeat split; lia.
  - erewrite Clear_bounds in H; [discriminate|eassumption|exact Hc].
Qed.

End Inversion.

(** ** The window never leaves memory *)

Lemma Append_too_long grow w a hd q vs off data :
  objs w !! a = Some (MkBuffer hd q (Some vs) off) ->
  s_cap vs < s_len vs + Z.of_nat (length data) ->
  max_int < s_len vs + Z.of_nat (length data) ->
  Append grow (Some a) data w = Panic LenOutOfRange w.
Proof.
  intros Ho Hcap Hmax. unfold Append. step.
  erewrite bind_panic; [reflexivity|].
  unfold append. cbn [len cap].
  rewrite (proj2 (Z.leb_gt _ _)) by lia.
  rewrite (proj2 (Z.leb_gt _ _)) by lia. reflexivity.
Qed.

Lemma Append_safe grow w a h q vs off data x w' :
  objs w !! a = Some (MkBuffer (Some h) q (Some vs) off) ->
  slice_ok w (Some h) -> slice_ok w (Some vs) ->
  Append grow (Some a) data w = Ok x w' ->
  exists o', objs w' !! a = Some o' /\ store_safe w' o' /\ head o' = Some h /\
             (forall s, slice_ok w s -> slice_ok w' s).
Proof.
  intros Ho Hh Hv H.
  assert (Hl : live w a) by (eapply live_lookup; eassumption).
  destruct (Z.le_gt_cases (s_len vs + Z.of_nat (length data)) (s_cap vs)) as [Hfit|Hbig].
  - erewrite Append_in_place in H by (first [eassumption|exact Hfit]).
    inversion H. subst. clear H. eexists.
    split; [apply objs_set_obj, live_mem_write; exact Hl|].
    assert (Hpres : forall s, slice_ok w s ->
              slice_ok (set_obj a
                          (MkBuffer (Some h) q
                             (Some (MkSlice (s_arr vs) (s_off vs)
                                      (s_len vs + Z.of_nat (length data)) (s_cap vs))) off)
                          (mem_write (s_arr vs) (s_off vs + s_len vs) data w)) s)
      by (intros s Hs; apply slice_ok_set_obj; now apply slice_ok_mem_write).
    split; [|split; [reflexivity|exact Hpres]].
    unfold store_safe. cbn [head Value].
    split; [done|]. split; [done|]. split; [now apply Hpres|].
    apply Hpres. unfold slice_ok in *. cbn [s_arr s_off s_len s_cap] in *.
    destruct (mem w !! s_arr vs); [lia|done].
  - destruct (Z.le_gt_cases (s_len vs + Z.of_nat (length data)) max_int) as [Hm|Hm].
    + destruct (Append_spec grow w a (Some h) q vs off data Ho Hv Hm)
        as (w2 & vs' & Happ & Ho2 & _ & _ & Hvs' & Hpres & _).
      rewrite Happ in H. inversion H. subst. clear H.
      eexists. split; [exact Ho2|]. split; [|split; [reflexivity|exact Hpres]].
      unfold store_safe. cbn [head Value].
      split; [done|]. split; [done|]. split; [now apply Hpres|exact Hvs'].
    + erewrite Append_too_long in H by (first [eassumption|lia]). discriminate.
Qed.

Lemma Read_safe w a h q vs off dst x w' :
  objs w !! a = Some (MkBuffer (Some h) q (Some vs) off) ->
  slice_ok w (Some h) -> slice_ok w (Some vs) ->
  Read (Some a) dst w = Ok x w' ->
  exists o', objs w' !! a = Some o' /\ store_safe w' o' /\ head o' = Some h /\
             (forall s, slice_ok w s -> slice_ok w' s).
Proof.
  intros Ho Hh Hv H. unfold Read in H.
  erewrite bind_ok in H by (eapply Len_ok; eassumption). cbn [len] in H.
  destruct (s_len vs =? 0) eqn:EL.
  { inversion H. subst. eexists. split; [eassumption|].
    split; [|split; [reflexivity|done]]. unfold store_safe. now cbn [head Value]. }
  erewrite bind_ok in H by (eapply rd_ok; eassumption). cbn [Value] in H.
  erewrite bind_ok in H by reflexivity.
  set (src := contents w (Some vs)) in H.
  assert (Hcp : exists n w1, copy dst src w = Ok n w1 /\ objs w1 = objs w /\
                  (forall s, slice_ok w s -> slice_ok w1 s)).
  { destruct dst as [d|]; simpl; do 2 eexists.
    - split; [reflexivity|]. split; [apply objs_mem_write|].
      intros s Hs. now apply slice_ok_mem_write.
    - split; [reflexivity|]. split; [reflexivity|done]. }
  destruct Hcp as (n & w1 & Hcp & Hobjs & Hpres).
  erewrite bind_ok in H by exact Hcp.
  assert (Ho1 : objs w1 !! a = Some (MkBuffer (Some h) q (Some vs) off))
    by now rewrite Hobjs.
  assert (Hl : live w1 a) by (eapply live_lookup; eassumption).
  erewrite bind_ok in H by (eapply Len_ok; eassumption). cbn [len] in H.
  destruct (n =? s_len vs) eqn:En.
  - apply bind_inv_ok in H. destruct H as (y & w2 & Hcl & Hr).
    inversion Hr. subst. clear Hr.
    destruct (Clear_inv _ _ _ _ _ _ Ho1 _ _ Hcl) as (Hc & _ & ->).
    eexists. split; [apply objs_set_obj; exact Hl|].
    split; [|split; [reflexivity|intros s Hs; now apply slice_ok_set_obj, Hpres]].
    unfold store_safe. cbn [head Value subslice].
    split; [done|]. split; [done|]. split; [now apply slice_ok_set_obj, Hpres|].
    apply slice_ok_set_obj.
    apply (slice_ok_subslice w1 (Some h) 16 16); [now apply Hpres|lia|exact Hc].
  - erewrite bind_ok in H by (eapply rd_ok; eassumption). cbn [Value len] in H.
    destruct (decide (0 <= n <= s_len vs)) as [Hb|Hb].
    + assert (Hvs := Hv). unfold slice_ok in Hvs.
      destruct (mem w !! s_arr vs) as [lv|] eqn:Hlv; [|done].
      erewrite bind_ok in H by (apply reslice_ok; simpl; lia).
      erewrite bind_ok in H by (eapply wr_ok; eassumption).
      erewrite bind_ok in H by (apply rd_set; exact Hl).
      erewrite bind_ok in H by (apply wr_set; exact Hl).
      inversion H. subst. clear H.
      eexists. split; [apply objs_set_obj; exact Hl|].
      split; [|split; [reflexivity|intros s Hs; now apply slice_ok_set_obj, Hpres]].
      unfold store_safe, set_offset, set_Value. cbn [head Value subslice].
      split; [done|]. split; [done|]. split; [now apply slice_ok_set_obj, Hpres|].
      apply slice_ok_set_obj.
      apply (slice_ok_subslice w1 (Some vs) n (s_len vs));
        [now apply Hpres|lia|simpl; lia].
    + erewrite bind_panic in H; [discriminate|].
      apply reslice_bounds. simpl. lia.
Qed.

(** X1: Whatever state a live buffer is in, aliased or not, grown or not: when
    one of Append, Prepend, Slice, SliceFrom, SliceBack, Clear and Read
    returns, the backing store and the window are still slices of arrays of
    the store, over the same backing store, and every slice that lay within
    memory before still does. *)
Theorem window_stays_in_memory
    (grow : Z -> Z -> Z) (w : World) (a : nat) (o : Buffer) (c : op) (w' : World) :
  objs w !! a = Some o ->
  store_safe w o ->
  run_op grow (Some a) c w = Ok tt w' ->
  exists o',
    objs w' !! a = Some o' /\ store_safe w' o' /\ head o' = head o /\
    (forall s, slice_ok w s -> slice_ok w' s).
Proof.
  intros Ho (Hh & Hv & Hhok & Hvok) H. destruct o as [hd q v off].
  cbn [head Value] in *.
  destruct hd as [h|]; [|done]. destruct v as [vs|]; [|done].
  assert (Hl : live w a) by (eapply live_lookup; eassumption).
  assert (Hsub : forall w1 s lo hi off', slice_ok w1 (Some h) -> slice_ok w1 s ->
            s <> None -> 0 <= lo <= hi -> hi <= cap s ->
            store_safe w1 (MkBuffer (Some h) q (subslice s lo hi) off')).
  { intros w1 s lo hi off' H1 H2 H3 H4 H5. unfold store_safe. cbn [head Value].
    split; [done|]. split; [now destruct s|]. split; [done|].
    now apply slice_ok_subslice. }
  destruct c as [data|data|from to|from|k| |dst];
    apply run_op_ok in H; destruct H as [x H].
  - eapply Append_safe; eassumption.
  - unfold Prepend in H. apply bind_inv_ok in H. destruct H as (y & w1 & Hsb & H).
    destruct (SliceBack_inv _ _ _ _ _ _ Ho _ _ _ Hsb) as (Hb1 & Hb2 & _ & ->).
    erewrite bind_ok in H by (apply rd_set; exact Hl). cbn [Value] in H.
    match type of H with context [copy ?d ?s] =>
      assert (Hcp : exists n w2, copy d s (set_obj a (MkBuffer (Some h) q d (int_sub off (Z.of_nat (length data)))) w) = Ok n w2 /\
                      objs w2 = objs (set_obj a (MkBuffer (Some h) q d (int_sub off (Z.of_nat (length data)))) w) /\
                      (forall s', slice_ok w s' -> slice_ok w2 s'))
    end.
    { simpl. do 2 eexists. split; [reflexivity|]. split; [apply objs_mem_write|].
      intros s' Hs'. now apply slice_ok_mem_write. }
    destruct Hcp as (n & w2 & Hcp & Hobjs & Hpres).
    erewrite bind_ok in H by exact Hcp. inversion H. subst. clear H.
    eexists. split; [rewrite Hobjs; apply objs_set_obj; exact Hl|].
    split; [|split; [reflexivity|exact Hpres]].
    unfold store_safe. cbn [head Value subslice].
    split; [done|]. split; [done|]. split; [now apply Hpres|].
    apply Hpres. apply (slice_ok_subslice w (Some h)); [done|lia|exact Hb2].
  - destruct (Slice_inv _ _ _ _ _ _ Ho _ _ _ _ H) as (Hb1 & Hb2 & _ & ->).
    eexists. split; [apply objs_set_obj; exact Hl|].
    split; [|split; [reflexivity|done]].
    apply (Hsub _ (Some vs)); done.
  - destruct (SliceFrom_inv _ _ _ _ _ _ Ho _ _ _ H) as (Hb1 & Hb2 & _ & ->).
    eexists. split; [apply objs_set_obj; exact Hl|].
    split; [|split; [reflexivity|done]].
    apply (Hsub _ (Some vs)); done.
  - destruct (SliceBack_inv _ _ _ _ _ _ Ho _ _ _ H) as (Hb1 & Hb2 & _ & ->).
    eexists. split; [apply objs_set_obj; exact Hl|].
    split; [|split; [reflexivity|done]].
    apply (Hsub _ (Some h)); [done..|lia|exact Hb2].
  - destruct (Clear_inv _ _ _ _ _ _ Ho _ _ H) as (Hc & _ & ->).
    eexists. split; [apply objs_set_obj; exact Hl|].
    split; [|split; [reflexivity|done]].
    apply (Hsub _ (Some h)); [done..|lia|exact Hc].
  - eapply Read_safe; eassumption.
Qed.

(** [window_stays_in_memory] on the full window of [demo_world]: the append
    moves the window to a fresh array. *)
Lemma window_stays_in_memory_witness :
  exists w',
    run_op doubling (Some 0%nat) (OpAppend hello) demo_world = Ok tt w' /\
    exists o',
      objs w' !! 0%nat = Some o' /\ store_safe w' o' /\
      head o' = head demo_buffer /\
      (forall s, slice_ok demo_world s -> slice_ok w' s).
Proof.
  eexists. split; [reflexivity|].
  assert (H1 : store_safe demo_world demo_buffer).
  { unfold store_safe. simpl. repeat split; try discriminate; lia. }
  exact (window_stays_in_memory doubling demo_world 0%nat demo_buffer
           (OpAppend hello) _ eq_refl H1 eq_refl).
Defined.

(** ** Prepend: what it writes and when it fits *)

Section PrependSpec.

Variables (w : World) (a : nat) (h : slice) (q : poolref) (off L : Z).
Variable data : list byte.
Hypothesis Ho :
  objs w !! a
  = Some (MkBuffer (Some h) q
            (Some (MkSlice (s_arr h) (s_off h + off) L (s_cap h - off))) off).
Hypothesis Hh : slice_ok w (Some h).
Hypothesis HL : 0 <= L.
Hypothesis Hfit : off + L <= s_cap h.
Hypothesis Hk : Z.of_nat (length data) <= off.

Lemma Prepend_contents :
  contents
    (mem_write (s_arr h) (s_off h + (off - Z.of_nat (length data))) data w)
    (Some (MkSlice (s_arr h) (s_off h + (off - Z.of_nat (length data)))
             (L + Z.of_nat (length data))
             (s_cap h - (off - Z.of_nat (length data)))))
  = data ++ contents w (Some (MkSlice (s_arr h) (s_off h + off) L (s_cap h - off))).
Proof.
  assert (Hh' := Hh). unfold slice_ok in Hh'.
  destruct (mem w !! s_arr h) as [l|] eqn:Hl; [|done].
  destruct Hh' as (H1 & H2 & H3).
  cbn [contents s_arr s_off s_len].
  rewrite (Z.add_comm L), mem_read_split by lia. f_equal.
  - erewrite mem_read_written; [|eassumption|lia..].
    rewrite Nat2Z.id. apply firstn_all.
  - replace (s_off h + (off - Z.of_nat (length data)) + Z.of_nat (length data))
      with (s_off h + off) by lia.
    eapply mem_read_elsewhere; [eassumption|lia..].
Qed.

End PrependSpec.

(** X2: On an aliased buffer whose backing store lies in memory, [Prepend]
    returns exactly when the data is no longer than the offset, the headroom
    that is left: the window then starts that many bytes earlier and shows
    the data followed by what it showed before.  Longer data panics with the
    headroom panic and leaves the store as it was. *)
Theorem Prepend_fits_iff_headroom
    (w : World) (a : nat) (o : Buffer) (data : list byte) :
  objs w !! a = Some o ->
  aliased o ->
  slice_ok w (head o) ->
  Z.of_nat (length data) <= max_int ->
  if Z.of_nat (length data) <=? offset o then
    exists w' o',
      Prepend (Some a) data w = Ok (Some a) w' /\
      objs w' !! a = Some o' /\
      aliased o' /\ head o' = head o /\
      offset o' = offset o - Z.of_nat (length data) /\
      len (Value o') = len (Value o) + Z.of_nat (length data) /\
      contents w' (Value o') = data ++ contents w (Value o)
  else Prepend (Some a) data w = Panic HeadroomExhausted w.
Proof.
  intros Ho Hal Hh Hmax. destruct o as [hd q v off].
  destruct (aliased_inv _ _ _ _ Hal) as (h & L & -> & -> & Hoff & HL & Hfit & Hcap).
  cbn [head Value offset len s_len] in *.
  destruct (Z.of_nat (length data) <=? off) eqn:E.
  - apply Z.leb_le in E.
    assert (Hl : live w a) by (eapply live_lookup; eassumption).
    do 2 eexists.
    split; [eapply Prepend_within_headroom; eassumption|].
    split; [apply objs_set_obj, live_mem_write; exact Hl|].
    split; [apply aliased_intro; lia|]. split; [reflexivity|].
    split; [reflexivity|]. split; [reflexivity|].
    rewrite contents_set_obj. cbn [Value]. now apply Prepend_contents.
  - apply Z.leb_gt in E. eapply Prepend_beyond_headroom; [eassumption|lia|exact Hmax].
Qed.

(** The theorem on [cleared_world]: [hello] fits the 16 bytes of headroom. *)
Lemma Prepend_fits_iff_headroom_witness :
  exists w' o',
    Prepend (Some 0%nat) hello cleared_world = Ok (Some 0%nat) w' /\
    objs w' !! 0%nat = Some o' /\
    aliased o' /\ head o' = head cleared_buffer /\
    offset o' = 16 - 5 /\
    len (Value o') = 0 + 5 /\
    contents w' (Value o') = hello ++ [].
Proof.
  assert (H1 : slice_ok cleared_world (head cleared_buffer)) by (simpl; lia).
  assert (H2 : Z.of_nat (length hello) <= max_int) by (unfold max_int; simpl; lia).
  exact (Prepend_fits_iff_headroom cleared_world 0%nat cleared_buffer hello
           eq_refl aliased_cleared_buffer H1 H2).
Defined.

Lemma PrependAll_contents chunks :
  forall w a h q off L,
    objs w !! a
    = Some (MkBuffer (Some h) q
              (Some (MkSlice (s_arr h) (s_off h + off) L (s_cap h - off))) off) ->
    slice_ok w (Some h) ->
    0 <= L -> off + L <= s_cap h -> s_cap h <= max_int ->
    total chunks <= off ->
    exists w',
      PrependAll (Some a) chunks w = Ok (Some a) w' /\
      objs w' !! a
      = Some (MkBuffer (Some h) q
                (Some (MkSlice (s_arr h) (s_off h + (off - total chunks))
                         (L + total chunks) (s_cap h - (off - total chunks))))
                (off - total chunks)) /\
      contents w'
        (Some (MkSlice (s_arr h) (s_off h + (off - total chunks))
                 (L + total chunks) (s_cap h - (off - total chunks))))
      = concat (reverse chunks)
        ++ contents w (Some (MkSlice (s_arr h) (s_off h + off) L (s_cap h - off))).
Proof.
  induction chunks as [|c cs IH]; intros w a h q off L Ho Hh HL Hfit Hmax Htot.
  - exists w. split; [reflexivity|]. simpl.
    rewrite !Z.sub_0_r, !Z.add_0_r. split; [exact Ho|reflexivity].
  - simpl in Htot. pose proof (total_nonneg cs) as Hcs.
    assert (Hl : live w a) by (eapply live_lookup; eassumption).
    set (k := Z.of_nat (length c)) in *.
    set (o1 := MkBuffer (Some h) q
                 (Some (MkSlice (s_arr h) (s_off h + (off - k)) (L + k)
                          (s_cap h - (off - k)))) (off - k)).
    set (w1 := set_obj a o1 (mem_write (s_arr h) (s_off h + (off - k)) c w)).
    destruct (IH w1 a h q (off - k) (L + k)) as (w' & Hrun & Ho' & Hc');
      [apply objs_set_obj, live_mem_write; exact Hl
      |apply slice_ok_set_obj; now apply slice_ok_mem_write
      |lia..|].
    exists w'.
    assert (E1 : off - k - total cs = off - (k + total cs)) by lia.
    assert (E2 : L + k + total cs = L + (k + total cs)) by lia.
    rewrite E1, E2 in Ho', Hc'.
    split; [|split; [exact Ho'|]].
    + cbn [PrependAll].
      erewrite bind_ok by (eapply Prepend_within_headroom; [eassumption|lia..]).
      exact Hrun.
    + cbn [total]. fold k. rewrite Hc'.
      unfold w1. rewrite contents_set_obj. subst k.
      rewrite (Prepend_contents w h off L c Hh HL Hfit) by lia.
      rewrite reverse_cons, concat_app. simpl. rewrite app_nil_r.
      now rewrite app_assoc.
Qed.

(** X3: On an aliased buffer whose backing store lies in memory, chunks whose
    total length fits the offset are all prepended, and the window then
    shows the chunks in reverse order of the calls, the last one first,
    followed by what it showed before. *)
Theorem PrependAll_last_chunk_first
    (w : World) (a : nat) (o : Buffer) (chunks : list (list byte)) :
  objs w !! a = Some o ->
  aliased o ->
  slice_ok w (head o) ->
  total chunks <= offset o ->
  exists w' o',
    PrependAll (Some a) chunks w = Ok (Some a) w' /\
    objs w' !! a = Some o' /\
    head o' = head o /\
    offset o' = offset o - total chunks /\
    contents w' (Value o') = concat (reverse chunks) ++ contents w (Value o).
Proof.
  intros Ho Hal Hh Htot. destruct o as [hd q v off].
  destruct (aliased_inv _ _ _ _ Hal) as (h & L & -> & -> & Hoff & HL & Hfit & Hcap).
  cbn [head Value offset] in *.
  destruct (PrependAll_contents chunks w a h q off L Ho Hh HL Hfit Hcap Htot)
    as (w' & Hrun & Ho' & Hc').
  do 2 eexists. split; [exact Hrun|]. split; [exact Ho'|].
  split; [reflexivity|]. split; [reflexivity|exact Hc'].
Qed.

(** The theorem on [hello_world]: a 2-byte and a 1-byte chunk before
    [hello]. *)
Lemma PrependAll_last_chunk_first_witness :
  exists w' o',
    PrependAll (Some 0%nat) [[Byte.x12; Byte.x34]; [Byte.x01]] hello_world
    = Ok (Some 0%nat) w' /\
    objs w' !! 0%nat = Some o' /\
    head o' = head hello_buffer /\
    offset o' = 16 - 3 /\
    contents w' (Value o') = [Byte.x01; Byte.x12; Byte.x34] ++ hello.
Proof.
  assert (H0 : aliased hello_buffer).
  { unfold aliased, max_int. simpl. repeat split; try lia. discriminate. }
  assert (H1 : slice_ok hello_world (head hello_buffer)) by (simpl; lia).
  assert (H2 : total [[Byte.x12; Byte.x34]; [Byte.x01]] <= 16) by (simpl; lia).
  exact (PrependAll_last_chunk_first hello_world 0%nat hello_buffer
           [[Byte.x12; Byte.x34]; [Byte.x01]] eq_refl H0 H1 H2).
Defined.

(** [Prepend_budget_after_Clear] on [demo_world]. *)
Lemma Prepend_budget_after_Clear_witness :
  (forall chunks, total chunks <= 16 ->
     exists w',
       PrependAll (Some 0%nat) chunks cleared_world = Ok (Some 0%nat) w' /\
       Len (Some 0%nat) w' = Ok (total chunks) w' /\
       rd offset (Some 0%nat) w' = Ok (16 - total chunks) w') /\
  (forall pre chunk rest,
     total pre <= 16 < total pre + Z.of_nat (length chunk) ->
     Z.of_nat (length chunk) <= max_int ->
     exists w1,
       PrependAll (Some 0%nat) pre cleared_world = Ok (Some 0%nat) w1 /\
       PrependAll (Some 0%nat) (pre ++ chunk :: rest) cleared_world
       = Panic HeadroomExhausted w1).
Proof.
  assert (H1 : cap (head demo_buffer) <= max_int) by (unfold max_int; simpl; lia).
  exact (Prepend_budget_after_Clear demo_world 0%nat demo_buffer (Some 0%nat)
           cleared_world eq_refl H1 eq_refl).
Defined.

(** ** Write and the appends *)

(** X5: [Write] on a live window below the length limit of a slice never fails:
    it reports all of the data as written, with no error, and the window
    then shows what it showed before followed by the data; backing store,
    pool and offset are untouched, and while the data fits the capacity the
    window stays where it is.  [Append], [AppendBytes] and [AppendString]
    leave the same store. *)
Theorem Write_accepts_all
    (grow : Z -> Z -> Z) (w : World) (a : nat) (o : Buffer) (vs : slice)
    (data : list byte) :
  objs w !! a = Some o ->
  Value o = Some vs ->
  slice_ok w (Some vs) ->
  s_len vs + Z.of_nat (length data) <= max_int ->
  exists w' o',
    Write grow (Some a) data w = Ok (Z.of_nat (length data), None) w' /\
    Append grow (Some a) data w = Ok (Some a) w' /\
    AppendBytes grow (Some a) data w = Ok (Some a) w' /\
    AppendString grow (Some a) data w = Ok (Some a) w' /\
    objs w' !! a = Some o' /\
    head o' = head o /\ pool o' = pool o /\ offset o' = offset o /\
    len (Value o') = s_len vs + Z.of_nat (length data) /\
    contents w' (Value o') = contents w (Value o) ++ data /\
    slice_ok w' (Value o') /\
    (s_len vs + Z.of_nat (length data) <= s_cap vs ->
     Value o' = Some (MkSlice (s_arr vs) (s_off vs)
                        (s_len vs + Z.of_nat (length data)) (s_cap vs))).
Proof.
  intros Ho HV Hv Hmax. destruct o as [hd q v off]. cbn [Value] in HV. subst v.
  destruct (Append_spec grow w a hd q vs off data Ho Hv Hmax)
    as (w' & vs' & Happ & Ho' & Hlen & Hcont & Hvs' & _ & _).
  exists w'. eexists.
  split; [unfold Write; erewrite bind_ok by exact Happ; reflexivity|].
  split; [exact Happ|]. split; [exact Happ|]. split; [exact Happ|].
  split; [exact Ho'|]. cbn [head pool offset Value len].
  split; [reflexivity|]. split; [reflexivity|]. split; [reflexivity|].
  split; [exact Hlen|]. split; [exact Hcont|]. split; [exact Hvs'|].
  intros Hfit. rewrite (Append_in_place grow w a hd q vs off data Ho Hfit) in Happ.
  inversion Happ as [Hw]. rewrite <- Hw in Ho'.
  rewrite objs_set_obj in Ho'
    by (apply live_mem_write; eapply live_lookup; eassumption).
  now inversion Ho'.
Qed.

(** The theorem on [cleared_world]. *)
Lemma Write_accepts_all_witness :
  exists w' o',
    Write doubling (Some 0%nat) hello cleared_world = Ok (5, None) w' /\
    Append doubling (Some 0%nat) hello cleared_world = Ok (Some 0%nat) w' /\
    AppendBytes doubling (Some 0%nat) hello cleared_world = Ok (Some 0%nat) w' /\
    AppendString doubling (Some 0%nat) hello cleared_world = Ok (Some 0%nat) w' /\
    objs w' !! 0%nat = Some o' /\
    head o' = head cleared_buffer /\ pool o' = pool cleared_buffer /\
    offset o' = offset cleared_buffer /\
    len (Value o') = 0 + 5 /\
    contents w' (Value o') = [] ++ hello /\
    slice_ok w' (Value o') /\
    (0 + 5 <= 16 -> Value o' = Some (MkSlice 0 16 (0 + 5) 16)).
Proof.
  assert (H1 : slice_ok cleared_world (Some (MkSlice 0 16 0 16))) by (simpl; lia).
  assert (H2 : 0 + Z.of_nat (length hello) <= max_int) by (unfold max_int; simpl; lia).
  exact (Write_accepts_all doubling cleared_world 0%nat cleared_buffer
           (MkSlice 0 16 0 16) hello eq_refl eq_refl H1 H2).
Defined.

(** ** Slice, SliceFrom and SliceBack *)

Lemma mem_read_take w arr p m n :
  0 <= n <= m -> take (Z.to_nat n) (mem_read w arr p m) = mem_read w arr p n.
Proof.
  intros Hn. unfold mem_read. destruct (mem w !! arr) as [l|]; [|apply take_nil].
  rewrite take_take. f_equal. lia.
Qed.

(** X6: [Slice(from, to)] returns exactly when [0 <= from <= to <= cap(Value)];
    the upper bound is the capacity, not the length.  It then leaves memory
    alone, the window has [to - from] bytes and, when [to] is within the
    length, shows the bytes [from .. to) of what it showed before.  Outside
    those bounds it panics with slice bounds out of range after it has moved
    the offset by [from]: the window is unchanged, and an aliased buffer is
    no longer aliased when [from] is not 0. *)
Theorem Slice_shows_subrange
    (w : World) (a : nat) (o : Buffer) (vs : slice) (from to : Z) :
  objs w !! a = Some o ->
  Value o = Some vs ->
  slice_ok w (Some vs) ->
  min_int <= from <= max_int ->
  exists o',
    head o' = head o /\ pool o' = pool o /\
    offset o' = int_add (offset o) from /\
    if (0 <=? from) && (from <=? to) && (to <=? s_cap vs) then
      Slice (Some a) from to w = Ok (Some a) (set_obj a o' w) /\
      Value o' = subslice (Value o) from to /\
      len (Value o') = to - from /\
      slice_ok w (Value o') /\
      (to <= s_len vs ->
       contents w (Value o')
       = take (Z.to_nat (to - from)) (drop (Z.to_nat from) (contents w (Value o))))
    else
      Slice (Some a) from to w = Panic SliceBounds (set_obj a o' w) /\
      Value o' = Value o /\
      (aliased o -> from <> 0 -> ~ aliased o').
Proof.
  intros Ho HV Hv Hfrom. destruct o as [hd q v off]. cbn [Value] in HV. subst v.
  assert (Hv' := Hv). unfold slice_ok in Hv'.
  destruct (mem w !! s_arr vs) as [l|] eqn:Hl; [|done].
  destruct Hv' as (H1 & H2 & H3).
  destruct ((0 <=? from) && (from <=? to) && (to <=? s_cap vs)) eqn:E.
  - apply andb_prop in E. destruct E as [E E3]. apply andb_prop in E.
    destruct E as [E1 E2].
    apply Z.leb_le in E1. apply Z.leb_le in E2. apply Z.leb_le in E3.
    eexists. split; [|split; [|split; [|split; [|split; [|split; [|split]]]]]].
    4:{ eapply Slice_ok; [eassumption|lia|exact E3]. }
    all: cbn [head pool offset Value subslice len s_len contents s_arr s_off]; try reflexivity.
    + unfold slice_ok. cbn [s_arr s_off s_len s_cap]. rewrite Hl. lia.
    + intros Hto. rewrite mem_read_drop by lia.
      rewrite mem_read_take by lia. reflexivity.
  - eexists. split; [|split; [|split; [|split; [|split]]]].
    4:{ eapply Slice_bounds; [eassumption|].
        intros (Hb1 & Hb2). cbn [cap] in Hb2.
        rewrite (proj2 (Z.leb_le 0 from)), (proj2 (Z.leb_le from to)),
          (proj2 (Z.leb_le to (s_cap vs))) in E by lia. discriminate. }
    all: cbn [head pool offset Value]; try reflexivity.
    intros Hal Hne Hal'.
    destruct (aliased_inv _ _ _ _ Hal) as (h & L & -> & [= ->] & Hoff & HL & Hfit & Hcap).
    destruct (aliased_inv _ _ _ _ Hal')
      as (h' & L' & [= <-] & [= Hso _] & Hoff' & _).
    unfold int_add in *.
    destruct (Z.le_gt_cases (off + from) max_int) as [Hs|Hs].
    + rewrite wrap_id in Hso by (unfold min_int in *; lia). lia.
    + pose proof (wrap_overflow (off + from)). unfold max_int in *. lia.
Qed.

(** The theorem on [hello_world]: [Slice(1, 4)] shows [ell]. *)
Lemma Slice_shows_subrange_witness :
  exists o',
    head o' = head hello_buffer /\ pool o' = pool hello_buffer /\
    offset o' = int_add 16 1 /\
    Slice (Some 0%nat) 1 4 hello_world = Ok (Some 0%nat) (set_obj 0 o' hello_world) /\
    Value o' = subslice (Value hello_buffer) 1 4 /\
    len (Value o') = 4 - 1 /\
    slice_ok hello_world (Value o') /\
    (4 <= 5 ->
     contents hello_world (Value o') = [Byte.x65; Byte.x6c; Byte.x6c]).
Proof.
  assert (H1 : slice_ok hello_world (Some (MkSlice 0 16 5 16))) by (simpl; lia).
  assert (H2 : min_int <= 1 <= max_int) by (unfold min_int, max_int; lia).
  exact (Slice_shows_subrange hello_world 0%nat hello_buffer (MkSlice 0 16 5 16) 1 4
           eq_refl eq_refl H1 H2).
Defined.

(** X7: On an aliased buffer whose backing store lies in memory, [SliceFrom(k)]
    with [0 <= k <= Len] drops the first [k] bytes of the window and moves
    the offset forward by [k], and [SliceBack(k)] then undoes it: the store
    is again what it was before the two calls. *)
Theorem SliceFrom_then_SliceBack
    (w : World) (a : nat) (o : Buffer) (k : Z) :
  objs w !! a = Some o ->
  aliased o ->
  slice_ok w (head o) ->
  0 <= k <= len (Value o) ->
  exists w1 o1,
    SliceFrom (Some a) k w = Ok (Some a) w1 /\
    objs w1 !! a = Some o1 /\
    aliased o1 /\
    offset o1 = offset o + k /\
    len (Value o1) = len (Value o) - k /\
    contents w1 (Value o1) = drop (Z.to_nat k) (contents w (Value o)) /\
    SliceBack (Some a) k w1 = Ok (Some a) w.
Proof.
  intros Ho Hal Hh Hk. destruct o as [hd q v off].
  destruct (aliased_inv _ _ _ _ Hal) as (h & L & -> & -> & Hoff & HL & Hfit & Hcap).
  cbn [head Value offset len s_len] in *.
  assert (Hl : live w a) by (eapply live_lookup; eassumption).
  assert (Hh' := Hh). unfold slice_ok in Hh'.
  destruct (mem w !! s_arr h) as [l|] eqn:Hmem; [|done].
  destruct Hh' as (H1 & H2 & H3).
  assert (Hadd : int_add off k = off + k)
    by (apply int_add_id; unfold min_int; lia).
  do 2 eexists. split; [|split; [|split; [|split; [|split; [|split]]]]].
  - eapply SliceFrom_ok; [eassumption|cbn [len cap s_len s_cap]; lia..].
  - apply objs_set_obj. exact Hl.
  - cbn [subslice len s_len s_arr s_off s_cap]. rewrite Hadd.
    replace (s_off h + off + k) with (s_off h + (off + k)) by lia.
    replace (s_cap h - off - k) with (s_cap h - (off + k)) by lia.
    apply aliased_intro; lia.
  - cbn [offset]. exact Hadd.
  - cbn [Value subslice len s_len]. reflexivity.
  - rewrite contents_set_obj. cbn [Value subslice len s_len contents s_arr s_off].
    now rewrite mem_read_drop by lia.
  - match goal with |- SliceBack _ _ (set_obj _ ?o1 _) = _ =>
      assert (Ho1 : objs (set_obj a o1 w) !! a = Some o1)
        by (apply objs_set_obj; exact Hl)
    end.
    cbn [subslice len s_len s_arr s_off s_cap] in Ho1 |- *.
    rewrite Hadd in Ho1 |- *.
    assert (Hs : int_sub (off + k) k = off)
      by (rewrite int_sub_id by (unfold min_int; lia); lia).
    assert (Ha : int_add (off + k) (L - k) = off + L)
      by (rewrite int_add_id by (unfold min_int; lia); lia).
    rewrite (SliceBack_ok _ _ _ _ _ _ Ho1 k)
      by (cbn [len cap s_len s_cap]; rewrite ?Hs, ?Ha; lia).
    rewrite set_obj_set_obj. f_equal.
    cbn [subslice len s_len]. rewrite Hs, Ha.
    replace (off + L - off) with L by lia.
    now apply set_obj_id.
Qed.

(** The theorem on [hello_world], dropping [he]. *)
Lemma SliceFrom_then_SliceBack_witness :
  exists w1 o1,
    SliceFrom (Some 0%nat) 2 hello_world = Ok (Some 0%nat) w1 /\
    objs w1 !! 0%nat = Some o1 /\
    aliased o1 /\
    offset o1 = 16 + 2 /\
    len (Value o1) = 5 - 2 /\
    contents w1 (Value o1) = [Byte.x6c; Byte.x6c; Byte.x6f] /\
    SliceBack (Some 0%nat) 2 w1 = Ok (Some 0%nat) hello_world.
Proof.
  assert (H0 : aliased hello_buffer).
  { unfold aliased, max_int. simpl. repeat split; try lia. discriminate. }
  assert (H1 : slice_ok hello_world (head hello_buffer)) by (simpl; lia).
  assert (H2 : 0 <= 2 <= len (Value hello_buffer)) by (simpl; lia).
  exact (SliceFrom_then_SliceBack hello_world 0%nat hello_buffer 2 eq_refl H0 H1 H2).
Defined.

(** ** NewLocalBuffer *)

(** X8: what [NewLocalBuffer(size)] does follows what its [make] does.  A
    panic of [make] is the panic of [NewLocalBuffer], and a negative size is
    such a panic (len out of range), the store untouched.  When [make]
    returns the array, a size below the 16 bytes of headroom panics with
    slice bounds out of range in [CreateBuffer]; from 16 on the result is a
    new buffer without pool over the fresh zeroed array of [size] bytes,
    aliased, with offset 16 and a full window of [size - 16] zero bytes.
    Nothing is said on which sizes the allocator can serve. *)
Theorem NewLocalBuffer_cases (size : Z) (w : World) :
  (size < 0 -> NewLocalBuffer size w = Panic LenOutOfRange w) /\
  (forall f w1, make size w = Panic f w1 -> NewLocalBuffer size w = Panic f w1) /\
  (forall c w1, make size w = Ok c w1 ->
     0 <= size /\
     c = Some (MkSlice (length (mem w)) 0 size size) /\
     w1 = MkWorld (mem w ++ [replicate (Z.to_nat size) Byte.x00])
            (objs w) (pools w) /\
     if size <? 16 then
       exists w', NewLocalBuffer size w = Panic SliceBounds w'
     else
       exists o w',
         NewLocalBuffer size w = Ok (Some (length (objs w))) w' /\
         w' = MkWorld (mem w1) (objs w ++ [o]) (pools w) /\
         aliased o /\ store_safe w' o /\
         head o = c /\ pool o = None /\ offset o = 16 /\
         len (Value o) = size - 16 /\ cap (Value o) = size - 16 /\
         contents w' (Value o) = replicate (Z.to_nat (size - 16)) Byte.x00).
Proof.
  split; [|split].
  - intros Hneg. unfold NewLocalBuffer, make.
    rewrite (proj2 (Z.leb_gt 0 size)) by lia. reflexivity.
  - intros f w1 Hm. unfold NewLocalBuffer. now rewrite (bind_panic _ _ _ _ _ Hm).
  - intros c w1 Hm.
    assert (Hm' := Hm). unfold make in Hm'.
    destruct ((0 <=? size) && (size <=? max_alloc)) eqn:E; [|discriminate].
    apply andb_prop in E. destruct E as [E1 E2].
    apply Z.leb_le in E1. apply Z.leb_le in E2.
    assert (Hmax : size <= max_int) by (unfold max_alloc, max_int in *; lia).
    injection Hm' as Hc Hw1. symmetry in Hc, Hw1.
    split; [exact E1|]. split; [exact Hc|]. split; [exact Hw1|].
    unfold NewLocalBuffer. rewrite (bind_ok _ _ _ _ _ Hm).
    destruct (size <? 16) eqn:E3.
    + apply Z.ltb_lt in E3. apply CreateBuffer_bounds. subst c. simpl. lia.
    + apply Z.ltb_ge in E3.
      rewrite (CreateBuffer_ok c None w1) by (subst c; simpl; lia).
      subst c w1.
      do 2 eexists. split; [reflexivity|]. split; [reflexivity|].
      cbn [subslice len s_len s_arr s_off s_cap].
      replace (0 + 16) with 16 by lia.
      split; [|split; [|split; [|split; [|split; [|split; [|split]]]]]];
        try reflexivity.
      * pose proof (aliased_intro (MkSlice (length (mem w)) 0 size size) None 16
                      (size - 16)) as Hal.
        cbn [s_arr s_off s_cap] in Hal.
        replace (0 + 16) with 16 in Hal by lia. apply Hal; lia.
      * unfold store_safe, slice_ok, set_mem.
        cbn [head Value s_arr s_off s_len s_cap mem].
        rewrite list_lookup_middle by done. rewrite length_replicate.
        repeat split; try done; lia.
      * cbn [Value contents mem_read s_arr s_off s_len mem].
        unfold mem_read, set_mem. cbn [mem]. rewrite list_lookup_middle by done.
        rewrite drop_replicate, take_replicate. f_equal. lia.
Qed.

(** X8 at 32 bytes on the empty store, where [make] returns: a buffer of
    16 zero bytes behind 16 bytes of headroom. *)
Lemma NewLocalBuffer_cases_witness :
  exists o w',
    NewLocalBuffer 32 empty_world = Ok (Some 0%nat) w' /\
    w' = MkWorld [replicate 32 Byte.x00] [o] [] /\
    offset o = 16 /\ len (Value o) = 16 /\
    contents w' (Value o) = replicate 16 Byte.x00.
Proof.
  destruct (proj2 (proj2 (NewLocalBuffer_cases 32 empty_world))
              (Some (MkSlice 0 0 32 32))
              (MkWorld [replicate 32 Byte.x00] [] []) eq_refl)
    as (_ & _ & _ & o & w' & Hr & Hw & _ & _ & _ & _ & Ho & Hl & _ & Hc).
  exists o, w'.
  split; [exact Hr|]. split; [exact Hw|]. split; [exact Ho|].
  split; [exact Hl|exact Hc].
Defined.

(** ** FillFrom with any source *)

Section FillFromAny.

Context {R : Type} `{Reader R}.
Variables (w : World) (a : nat).
Variables (hd : bytes) (q : poolref) (vs : slice) (off : Z) (reader : R).
Hypothesis Ho : objs w !! a = Some (MkBuffer hd q (Some vs) off).
Hypothesis Hv : slice_ok w (Some vs).

Lemma FillFrom_any :
  FillFrom (Some a) reader w
  = let out := fst (reader_Read reader (s_cap vs - s_len vs)) in
    let w1 := mem_write (s_arr vs) (s_off vs + s_len vs)
                (take (Z.to_nat (s_cap vs - s_len vs)) (ro_stored out)) w in
    let full := MkBuffer hd q (Some (MkSlice (s_arr vs) (s_off vs) (s_cap vs) (s_cap vs))) off in
    match ro_err out with
    | Some e => Ok (ro_n out, Some e, snd (reader_Read reader (s_cap vs - s_len vs)))
                  (set_obj a full w1)
    | None =>
        if (0 <=? int_add (s_len vs) (ro_n out))
           && (int_add (s_len vs) (ro_n out) <=? s_cap vs)
        then Ok (ro_n out, None, snd (reader_Read reader (s_cap vs - s_len vs)))
               (set_obj a
                  (MkBuffer hd q
                     (Some (MkSlice (s_arr vs) (s_off vs)
                              (int_add (s_len vs) (ro_n out)) (s_cap vs))) off)
                  w1)
        else Panic SliceBounds (set_obj a full w1)
    end.
Proof.
  assert (Hv' := Hv). unfold slice_ok in Hv'.
  destruct (mem w !! s_arr vs) as [lv|] eqn:Hlv; [|done].
  destruct Hv' as (Hv1 & Hv2 & Hv3).
  unfold FillFrom.
  erewrite bind_ok by (eapply Len_ok; eassumption). fields.
  do 5 step.
  unfold call_Read at 1.
  cbn [subslice set_Value len cap s_arr s_off s_len s_cap head pool Value offset].
  replace (s_cap vs - 0 - s_len vs) with (s_cap vs - s_len vs) by lia.
  replace (s_off vs + 0 + s_len vs) with (s_off vs + s_len vs) by lia.
  destruct (reader_Read reader (s_cap vs - s_len vs)) as [[stored n err] reader'].
  cbn [fst snd ro_n ro_err ro_stored] in *. cbv zeta.
  erewrite bind_ok by reflexivity. cbv beta iota.
  rewrite mem_write_set_obj.
  assert (Hl : live (mem_write (s_arr vs) (s_off vs + s_len vs)
                       (take (Z.to_nat (s_cap vs - s_len vs)) stored) w) a)
    by (apply live_mem_write; eapply live_lookup; eassumption).
  destruct err as [e|].
  - erewrite bind_ok by reflexivity. unfold ret, set_Value.
    cbn [head pool Value offset]. now rewrite Z.add_0_r, !Z.sub_0_r.
  - destruct ((0 <=? int_add (s_len vs) n) && (int_add (s_len vs) n <=? s_cap vs)) eqn:E.
    + apply andb_prop in E. destruct E as [E1 E2].
      apply Z.leb_le in E1. apply Z.leb_le in E2.
      erewrite bind_ok.
      2:{ step. step. apply wr_set. exact Hl. }
      unfold ret, set_Value, subslice.
      cbn [head pool Value offset s_arr s_off s_len s_cap].
      now rewrite !Z.add_0_r, !Z.sub_0_r.
    + erewrite bind_panic.
      2:{ step. erewrite bind_panic; [reflexivity|].
          apply reslice_bounds. cbn [cap s_cap]. intros [[_ Hb1] Hb2].
          rewrite (proj2 (Z.leb_le 0 _)), (proj2 (Z.leb_le _ (s_cap vs))) in E by lia.
          discriminate. }
      unfold set_Value. cbn [head pool Value offset].
      now rewrite Z.add_0_r, !Z.sub_0_r.
Qed.

End FillFromAny.

(** X9: Whatever the source does, within or against the contract of io.Reader:
    when [FillFrom] returns, memory differs from before only by stores into
    the tail [Value[len:cap]], and the window is still a slice of memory in
    the same place, with the same capacity and a length between 0 and that
    capacity.  A source that reports no error and more bytes than the tail
    has room for makes [FillFrom] panic with slice bounds out of range. *)
Theorem FillFrom_stays_within_capacity
    {R : Type} `{Reader R} (w : World) (a : nat) (o : Buffer) (vs : slice)
    (reader : R) :
  objs w !! a = Some o ->
  Value o = Some vs ->
  slice_ok w (Some vs) ->
  let room := s_cap vs - s_len vs in
  let out := fst (reader_Read reader room) in
  let w1 := mem_write (s_arr vs) (s_off vs + s_len vs)
              (take (Z.to_nat room) (ro_stored out)) w in
  (forall r w',
     FillFrom (Some a) reader w = Ok r w' ->
     exists o' n',
       w' = set_obj a o' w1 /\
       head o' = head o /\ pool o' = pool o /\ offset o' = offset o /\
       Value o' = Some (MkSlice (s_arr vs) (s_off vs) n' (s_cap vs)) /\
       0 <= n' <= s_cap vs /\
       slice_ok w' (Value o')) /\
  (ro_err out = None -> s_cap vs <= max_int -> room < ro_n out <= max_int ->
   exists w', FillFrom (Some a) reader w = Panic SliceBounds w').
Proof.
  intros Ho HV Hv room out w1. destruct o as [hd q v off]. cbn [Value] in HV. subst v.
  pose proof (FillFrom_any w a hd q vs off reader Ho Hv) as Hrun.
  cbv zeta in Hrun. fold room in Hrun. fold out in Hrun. fold w1 in Hrun.
  assert (Hv' := Hv). unfold slice_ok in Hv'.
  destruct (mem w !! s_arr vs) as [lv|] eqn:Hlv; [|done].
  destruct Hv' as (Hv1 & Hv2 & Hv3).
  assert (Hok : forall n', 0 <= n' <= s_cap vs -> forall o',
            slice_ok (set_obj a o' w1)
              (Some (MkSlice (s_arr vs) (s_off vs) n' (s_cap vs)))).
  { intros n' Hn' o'. apply slice_ok_set_obj. unfold w1.
    apply slice_ok_mem_write. unfold slice_ok. cbn [s_arr s_off s_len s_cap].
    rewrite Hlv. lia. }
  split.
  - intros r w' Hr. rewrite Hrun in Hr. destruct (ro_err out) as [e|].
    + inversion Hr. subst. do 2 eexists.
      split; [reflexivity|]. cbn [head pool offset Value].
      repeat split; try reflexivity; try lia. apply Hok. lia.
    + destruct ((0 <=? int_add (s_len vs) (ro_n out))
                && (int_add (s_len vs) (ro_n out) <=? s_cap vs)) eqn:E;
        [|discriminate].
      apply andb_prop in E. destruct E as [E1 E2].
      apply Z.leb_le in E1. apply Z.leb_le in E2.
      inversion Hr. subst. do 2 eexists.
      split; [reflexivity|]. cbn [head pool offset Value].
      repeat split; try reflexivity; try lia. apply Hok. lia.
  - intros Herr Hcap Hn. rewrite Hrun, Herr.
    replace ((0 <=? int_add (s_len vs) (ro_n out))
             && (int_add (s_len vs) (ro_n out) <=? s_cap vs)) with false;
      [eauto|].
    symmetry. apply andb_false_iff. unfold int_add, room in *.
    destruct (Z.le_gt_cases (s_len vs + ro_n out) max_int) as [Hs|Hs].
    + right. rewrite wrap_id by (unfold min_int; lia). apply Z.leb_gt. lia.
    + left. pose proof (wrap_overflow (s_len vs + ro_n out)).
      apply Z.leb_gt. unfold max_int in *. lia.
Qed.

(** The theorem on [cleared_world] with a source that reports 100 bytes for
    a tail of 16. *)
Lemma FillFrom_stays_within_capacity_witness :
  exists w', FillFrom (Some 0%nat) (MkLiar 100) cleared_world = Panic SliceBounds w'.
Proof.
  assert (H1 : slice_ok cleared_world (Some (MkSlice 0 16 0 16))) by (simpl; lia).
  assert (H2 : 16 <= max_int) by (unfold max_int; lia).
  assert (H3 : 16 - 0 < 100 <= max_int) by (unfold max_int; lia).
  exact (proj2 (FillFrom_stays_within_capacity cleared_world 0%nat cleared_buffer
                  (MkSlice 0 16 0 16) (MkLiar 100) eq_refl eq_refl H1)
           eq_refl H2 H3).
Defined.

(** ** PrependHash and the integer prepends *)

(** Extending the window backward by the length of the data and appending
    the data to the empty prefix of the new window is [Prepend]. *)
Lemma prepend_by_append grow w a h q off L data :
  objs w !! a
  = Some (MkBuffer (Some h) q
            (Some (MkSlice (s_arr h) (s_off h + off) L (s_cap h - off))) off) ->
  0 <= off -> 0 <= L -> off + L <= s_cap h -> s_cap h <= max_int ->
  Z.of_nat (length data) <= max_int ->
  (do_ SliceBack (Some a) (Z.of_nat (length data));
   do x <- rd Value (Some a);
   do x0 <- reslice x 0 0;
   do_ append grow x0 data;
   ret (Some a)) w
  = Prepend (Some a) data w.
Proof.
  intros Ho Hoff HL Hfit Hcap Hmax.
  assert (Hl : live w a) by (eapply live_lookup; eassumption).
  destruct (Z.le_gt_cases (Z.of_nat (length data)) off) as [Hk|Hk].
  - rewrite (Prepend_within_headroom w a h q off L data Ho HL Hfit Hcap Hk).
    assert (Hlo : int_sub off (Z.of_nat (length data)) = off - Z.of_nat (length data))
      by (apply int_sub_id; unfold min_int; lia).
    assert (Hhi : int_add off L = off + L)
      by (apply int_add_id; unfold min_int; lia).
    erewrite bind_ok;
      [|eapply SliceBack_ok; [eassumption|cbn [len cap s_len s_cap]; lia..]].
    cbn [len s_len subslice]. rewrite Hlo, Hhi.
    step. erewrite bind_ok by (apply reslice_ok; cbn [cap s_cap]; lia).
    cbn [subslice].
    erewrite bind_ok.
    2:{ unfold append. cbn [len cap s_len s_cap].
        rewrite (proj2 (Z.leb_le _ _)) by lia. reflexivity. }
    unfold ret. cbn [s_arr s_off s_len]. rewrite mem_write_set_obj.
    f_equal. f_equal; [f_equal; f_equal; f_equal; lia|f_equal; lia].
  - rewrite (Prepend_beyond_headroom w a _ _ _ _ data Ho) by lia.
    erewrite bind_panic; [reflexivity|].
    eapply SliceBack_headroom; [eassumption|].
    rewrite int_sub_id by (unfold min_int, max_int in *; lia). lia.
Qed.

(** X10: On an aliased buffer, for a hash that keeps the contract of hash.Hash
    ([Sum] appends [Size] bytes): [PrependHash] leaves the same store, or
    the same panic, as [Prepend] of the digest. *)
Theorem PrependHash_is_Prepend_of_digest
    (grow : Z -> Z -> Z) {H : Type} `{Hash H}
    (w : World) (a : nat) (o : Buffer) (h : H) :
  objs w !! a = Some o ->
  aliased o ->
  hash_Size h = Z.of_nat (length (hash_digest h)) ->
  hash_Size h <= max_int ->
  PrependHash grow (Some a) h w = Prepend (Some a) (hash_digest h) w.
Proof.
  intros Ho Hal Hsize Hmax. destruct o as [hd q v off].
  destruct (aliased_inv _ _ _ _ Hal) as (s & L & -> & -> & Hoff & HL & Hfit & Hcap).
  unfold PrependHash, call_Sum. rewrite Hsize.
  apply (prepend_by_append grow w a s q off L (hash_digest h)); try assumption.
  lia.
Qed.

(** The theorem on [hello_world] with a 4-byte digest. *)
Lemma PrependHash_is_Prepend_of_digest_witness :
  PrependHash doubling (Some 0%nat) demo_hash hello_world
  = Prepend (Some 0%nat) demo_hash hello_world.
Proof.
  assert (H0 : aliased hello_buffer).
  { unfold aliased, max_int. simpl. repeat split; try lia. discriminate. }
  assert (H2 : hash_Size demo_hash <= max_int) by (unfold max_int; simpl; lia).
  exact (PrependHash_is_Prepend_of_digest doubling hello_world 0%nat hello_buffer
           demo_hash eq_refl H0 eq_refl H2).
Defined.

(** X11: On an aliased buffer, with the big-endian encoder the spec describes:
    [PrependUint16] and [PrependUint32] leave the same store, or the same
    panic, as [Prepend] of the two or four bytes of the value, most
    significant first. *)
Theorem PrependUint_is_Prepend_of_big_endian
    (grow : Z -> Z -> Z) (w : World) (a : nat) (o : Buffer) (v : Z) :
  objs w !! a = Some o ->
  aliased o ->
  PrependUint16 grow (Some a) v w
  = Prepend (Some a) [byte_of_Z (v / 256); byte_of_Z v] w /\
  PrependUint32 grow (Some a) v w
  = Prepend (Some a) [byte_of_Z (v / 16777216); byte_of_Z (v / 65536);
                      byte_of_Z (v / 256); byte_of_Z v] w.
Proof.
  intros Ho Hal. destruct o as [hd q x off].
  destruct (aliased_inv _ _ _ _ Hal) as (s & L & -> & -> & Hoff & HL & Hfit & Hcap).
  split.
  - unfold PrependUint16, Uint16ToBytes.
    apply (prepend_by_append grow w a s q off L
             [byte_of_Z (v / 256); byte_of_Z v]); try assumption.
    unfold max_int. simpl. lia.
  - unfold PrependUint32, Uint32ToBytes.
    apply (prepend_by_append grow w a s q off L
             [byte_of_Z (v / 16777216); byte_of_Z (v / 65536);
              byte_of_Z (v / 256); byte_of_Z v]); try assumption.
    unfold max_int. simpl. lia.
Qed.

(** The theorem on [hello_world] with the value 0x1234. *)
Lemma PrependUint_is_Prepend_of_big_endian_witness :
  PrependUint16 doubling (Some 0%nat) 4660 hello_world
  = Prepend (Some 0%nat) [Byte.x12; Byte.x34] hello_world /\
  PrependUint32 doubling (Some 0%nat) 4660 hello_world
  = Prepend (Some 0%nat) [Byte.x00; Byte.x00; Byte.x12; Byte.x34] hello_world.
Proof.
  assert (H0 : aliased hello_buffer).
  { unfold aliased, max_int. simpl. repeat split; try lia. discriminate. }
  exact (PrependUint_is_Prepend_of_big_endian doubling hello_world 0%nat
           hello_buffer 4660 eq_refl H0).
Defined.

(** ** After Release *)

Lemma Release_run w a h q v off :
  objs w !! a = Some (MkBuffer (Some h) q v off) ->
  (forall qi, q = Some qi -> is_Some (pools w !! qi)) ->
  exists w1,
    Release (Some a) w = Ok tt w1 /\
    objs w1 !! a = Some (MkBuffer None None None off) /\
    mem w1 = mem w.
Proof.
  intros Ho Hq.
  assert (Hl : live w a) by (eapply live_lookup; eassumption).
  destruct q as [qi|].
  - destruct (Hq qi eq_refl) as [po Hpo].
    eexists. split; [|split].
    + unfold Release. do 2 step.
      erewrite bind_ok by (eapply Pool_Free_ok; eassumption). fields.
      assert (Ho' : objs (set_poolobj qi (give_back (Some h) po) w) !! a
                    = Some (MkBuffer (Some h) (Some qi) v off)) by exact Ho.
      step. step. erewrite wr_set by exact Hl. fields. reflexivity.
    + simpl. apply list_lookup_insert_eq. exact Hl.
    + reflexivity.
  - eexists. split; [|split].
    + unfold Release. do 2 step. erewrite bind_ok by reflexivity.
      step. step. erewrite wr_set by exact Hl. fields. reflexivity.
    + simpl. apply list_lookup_insert_eq. exact Hl.
    + reflexivity.
Qed.

(** X12: Once a live buffer has been released, the reading side treats it as an
    empty buffer and touches nothing: [Len] is 0, [IsEmpty] is true, [Bytes]
    is nil, [String] is empty and [Read] returns 0 bytes with [EOF] for any
    destination, while [Clear] panics with slice bounds out of range. *)
Theorem released_buffer_reads_as_empty (w : World) (a : nat) (o : Buffer) :
  objs w !! a = Some o ->
  head o <> None ->
  (forall qi, pool o = Some qi -> is_Some (pools w !! qi)) ->
  exists w1,
    Release (Some a) w = Ok tt w1 /\
    Len (Some a) w1 = Ok 0 w1 /\
    IsEmpty (Some a) w1 = Ok true w1 /\
    Bytes (Some a) w1 = Ok None w1 /\
    String (Some a) w1 = Ok [] w1 /\
    (forall dst, Read (Some a) dst w1 = Ok (0, Some EOF) w1) /\
    (exists w2, Clear (Some a) w1 = Panic SliceBounds w2).
Proof.
  intros Ho Hh Hq. destruct o as [[h|] q v off]; [clear Hh|done].
  cbn [pool] in Hq.
  destruct (Release_run w a h q v off Ho Hq) as (w1 & Hrel & Ho1 & _).
  exists w1. split; [exact Hrel|].
  split; [exact (Len_ok _ _ _ _ _ _ Ho1)|].
  split; [exact (IsEmpty_ok _ _ _ _ _ _ Ho1)|].
  split; [exact (Bytes_ok _ _ _ _ _ _ Ho1)|].
  split; [unfold String; erewrite bind_ok by (eapply rd_ok; exact Ho1); reflexivity|].
  split; [intros dst; eapply Read_eof; [exact Ho1|reflexivity]|].
  eexists. eapply Clear_bounds; [exact Ho1|simpl; lia].
Qed.

(** The theorem on [demo_world]. *)
Lemma released_buffer_reads_as_empty_witness :
  exists w1,
    Release (Some 0%nat) demo_world = Ok tt w1 /\
    Len (Some 0%nat) w1 = Ok 0 w1 /\
    IsEmpty (Some 0%nat) w1 = Ok true w1 /\
    Bytes (Some 0%nat) w1 = Ok None w1 /\
    String (Some 0%nat) w1 = Ok [] w1 /\
    (forall dst, Read (Some 0%nat) dst w1 = Ok (0, Some EOF) w1) /\
    (exists w2, Clear (Some 0%nat) w1 = Panic SliceBounds w2).
Proof.
  assert (H1 : head demo_buffer <> None) by discriminate.
  assert (H2 : forall qi, pool demo_buffer = Some qi -> is_Some (pools demo_world !! qi)).
  { intros qi Hq. inversion Hq. subst qi. eexists. reflexivity. }
  exact (released_buffer_reads_as_empty demo_world 0%nat demo_buffer eq_refl H1 H2).
Defined.

(** ** Read into an empty destination *)

Lemma mem_write_nil w arr pos :
  mem_write arr pos [] w = w.
Proof.
  unfold mem_write. destruct (mem w !! arr) as [l|] eqn:Hl; [|reflexivity].
  assert (Hs : splice l (Z.to_nat pos) [] = l).
  { unfold splice. cbn [app length]. rewrite Nat.add_0_r, take_drop.
    now apply take_ge. }
  rewrite Hs. destruct w as [m os ps]. unfold set_mem. cbn [mem objs pools] in *.
  now rewrite list_insert_id.
Qed.

(** X13: On an aliased buffer that holds bytes, [Read] into a destination of
    length 0 (nil or empty) returns 0 bytes and no error, not [EOF], and
    leaves the store exactly as it was: a loop that drains through such a
    destination makes no progress. *)
Theorem Read_into_empty_destination
    (w : World) (a : nat) (o : Buffer) (dst : bytes) :
  objs w !! a = Some o ->
  aliased o ->
  0 < len (Value o) ->
  len dst = 0 ->
  Read (Some a) dst w = Ok (0, None) w.
Proof.
  intros Ho Hal Hpos Hdst. destruct o as [hd q v off].
  destruct (aliased_inv _ _ _ _ Hal) as (h & L & -> & -> & Hoff & HL & Hfit & Hcap).
  cbn [Value len s_len] in Hpos.
  assert (Hl : live w a) by (eapply live_lookup; eassumption).
  unfold Read.
  erewrite bind_ok by (eapply Len_ok; eassumption). cbn [len s_len].
  rewrite (proj2 (Z.eqb_neq _ 0)) by lia.
  step. erewrite bind_ok by reflexivity.
  erewrite (bind_ok _ _ _ 0 w).
  2:{ unfold copy. rewrite Hdst. rewrite Z.min_l by lia.
      destruct dst as [d|]; [|reflexivity].
      cbn [Z.to_nat take]. now rewrite mem_write_nil. }
  erewrite bind_ok by (eapply Len_ok; eassumption). cbn [len s_len].
  rewrite (proj2 (Z.eqb_neq 0 L)) by lia.
  do 5 step. unfold ret. f_equal.
  rewrite int_add_id by (unfold min_int; lia).
  cbn [subslice]. rewrite !Z.add_0_r, !Z.sub_0_r.
  now apply set_obj_id.
Qed.

(** The theorem on [hello_world] with a nil destination. *)
Lemma Read_into_empty_destination_witness :
  Read (Some 0%nat) None hello_world = Ok (0, None) hello_world.
Proof.
  assert (H0 : aliased hello_buffer).
  { unfold aliased, max_int. simpl. repeat split; try lia. discriminate. }
  assert (H1 : 0 < len (Value hello_buffer)) by (simpl; lia).
  exact (Read_into_empty_destination hello_world 0%nat hello_buffer None
           eq_refl H0 H1 eq_refl).
Defined.
